(** * A shallow embedding of the [health] package (fresh8/health)

    The package aggregates the health of named dependencies into one
    boolean.  The embedding follows [health.go]:

    - [Level] is Go's [uint32], a [Z] with its range written out;
    - [ServiceCheck.Dependencies] is a slice of _pointers_: the records live
      in a store (a list indexed by address) and the slice holds addresses,
      so that [dependency.Healthy = dependency.check()] is an update of the
      store, seen by every holder of the address;
    - a probe ([func() bool]) is a state-passing function on an abstract
      [World], or [None] for the nil function; every invocation is also
      written to a ghost call log.  The world is everything a probe can
      read or change; the check and its records are not part of it;
    - dereferencing nil (an address outside the store) and calling the nil
      function are panics: the computation yields [None].

    Locks ([sync.RWMutex]) are not modelled: every method is one atomic
    step of a sequential machine.  The two goroutine loops ([StartCheck],
    [WaitForDependencies]) and their timers are outside the embedding; each
    of their iterations is one [updateStatus]. *)

From Stdlib Require Import ZArith NArith String Ascii List Bool Lia.
From Stdlib Require Import DecimalFacts DecimalN.
From stdpp Require Import prelude strings.

#[local] Set Warnings "-clear-no-such-hyp".

Local Open Scope Z_scope.

(** ** Levels *)

(** [type Level uint32] *)
Definition Level := Z.

Definition uint32_max : Z := 4294967295.

Definition is_uint32 (l : Z) : Prop := 0 ≤ l ≤ uint32_max.

Definition LevelSoft : Level := 0.
Definition LevelHard : Level := 1.

(** ** Errors *)

(** The three package-level error values, and the errors handed back by the
    standard library ([net/url], [net/http], [encoding/json], [io]). *)
Inductive error :=
| ErrNoServiceNameSupplied
| ErrDependencyAlreadyRegistered
| ErrNoDependency
| ErrLibrary (msg : string).

#[global] Instance error_eq_dec : EqDecision error.
Proof. solve_decision. Defined.

(** ** Records *)

(** An address in the store of [Dependency] records. *)
Abbreviation ptr := nat (only parsing).

Module Dependency.
Record t {World : Type} := mk {
  Name : string;
  Healthy : bool;
  Level : Z;
  check : option (World → bool * World)
}.
Arguments t : clear implicits.
Arguments mk {World}.

Definition set_Healthy {World} (b : bool) (d : t World) : t World :=
  mk (Name d) b (Level d) (check d).
End Dependency.

Module ServiceCheck.
Record t := mk {
  Name : string;
  Healthy : bool;
  Dependencies : list ptr;
  duration : Z
}.

Definition set_Healthy (b : bool) (s : t) : t :=
  mk (Name s) b (Dependencies s) (duration s).

Definition set_Dependencies (ps : list ptr) (s : t) : t :=
  mk (Name s) (Healthy s) ps (duration s).
End ServiceCheck.

(** One probe invocation, as the ghost log keeps it: whose probe ran, at
    which level, and what it answered. *)
Record Call := mkCall {
  callee : string;
  level : Level;
  result : bool
}.

#[global] Instance Call_eq_dec : EqDecision Call.
Proof. solve_decision. Defined.

(** A call that turns the aggregate unhealthy. *)
Definition hard_failure (c : Call) : bool :=
  negb (result c) && bool_decide (level c = LevelHard).

Section Machine.
Context {World : Type}.

Abbreviation Dependency := (Dependency.t World).
Abbreviation Probe := (World → bool * World).

(** The part of the program state the package touches. *)
Record State := mkState {
  world : World;
  heap : list Dependency;
  calls : list Call
}.

(** *** A state-and-panic monad *)

Definition M (A : Type) : Type := State → option (A * State).

Definition ret {A} (a : A) : M A := λ σ, Some (a, σ).

Definition bind {A B} (m : M A) (k : A → M B) : M B :=
  λ σ, match m σ with
       | Some (a, σ') => k a σ'
       | None => None
       end.

Definition panic {A} : M A := λ _, None.

Notation "x ←ₘ m ; k" := (bind m (λ x, k))
  (at level 20, m at level 100, k at level 200, only parsing).
Notation "m ;;ₘ k" := (bind m (λ _, k))
  (at level 100, k at level 200, right associativity, only parsing).

(** [*p] *)
Definition load (p : ptr) : M Dependency :=
  λ σ, match heap σ !! p with
       | Some d => Some (d, σ)
       | None => None
       end.

(** [*p = d] *)
Definition store (p : ptr) (d : Dependency) : M unit :=
  λ σ, match heap σ !! p with
       | Some _ => Some (tt, mkState (world σ) (<[p := d]> (heap σ)) (calls σ))
       | None => None
       end.

(** [&Dependency{...}]: a fresh address, the next free cell. *)
Definition new (d : Dependency) : M ptr :=
  λ σ, Some (length (heap σ), mkState (world σ) (heap σ ++ [d]) (calls σ)).

(** [check()], run against the world and logged. *)
Definition invoke (name : string) (lvl : Level) (check : option Probe) : M bool :=
  match check with
  | Some f =>
      λ σ, let r := f (world σ) in
           Some (r.1, mkState r.2 (heap σ) (calls σ ++ [mkCall name lvl r.1]))
  | None => panic
  end.

(** *** [InitialiseServiceCheck] (health.go) *)

Definition InitialiseServiceCheck (name : string) (duration : Z)
  : option ServiceCheck.t * option error :=
  if decide (name = "") then (None, Some ErrNoServiceNameSupplied)
  else (Some (ServiceCheck.mk name false [] duration), None).

(** The same function in the later revision of the file (unnamed/part_000),
    whose struct literal has the extra field [Healthy: true]. *)
Definition InitialiseServiceCheck_rev (name : string) (duration : Z)
  : option ServiceCheck.t * option error :=
  if decide (name = "") then (None, Some ErrNoServiceNameSupplied)
  else (Some (ServiceCheck.mk name true [] duration), None).

(** *** [RegisterDependency] *)

(** The duplicate scan, [for _, dependency := range s.Dependencies]. *)
Fixpoint registered (ps : list ptr) (name : string) : M bool :=
  match ps with
  | [] => ret false
  | p :: ps' =>
      dependency ←ₘ load p;
      if decide (Dependency.Name dependency = name) then ret true
      else registered ps' name
  end.

Definition RegisterDependency (s : ServiceCheck.t) (name : string)
    (lvl : Level) (check : option Probe) : M (option error * ServiceCheck.t) :=
  if decide (name = "") then ret (Some ErrNoDependency, s)
  else
    dup ←ₘ registered (ServiceCheck.Dependencies s) name;
    if dup : bool then ret (Some ErrDependencyAlreadyRegistered, s)
    else
      h ←ₘ invoke name lvl check;
      dep ←ₘ new (Dependency.mk name h lvl check);
      ret (None,
           ServiceCheck.set_Dependencies (ServiceCheck.Dependencies s ++ [dep]) s).

(** *** [Dependency], the lookup by name *)

(** The method [(s *ServiceCheck) Dependency(name)]: the address of the
    first record with that name, not a copy of the record. *)
Fixpoint lookup_Dependency (ps : list ptr) (name : string)
  : M (option ptr * option error) :=
  match ps with
  | [] => ret (None, Some ErrNoDependency)
  | p :: ps' =>
      dependency ←ₘ load p;
      if decide (Dependency.Name dependency = name) then ret (Some p, None)
      else lookup_Dependency ps' name
  end.

(** *** [getHealth], [IsHealthy] *)

Definition getHealth (s : ServiceCheck.t) : bool := ServiceCheck.Healthy s.

Definition IsHealthy (s : ServiceCheck.t) : bool := getHealth s.

(** *** [updateStatus] *)

(** The loop over [s.Dependencies]; the early [return] is the branch that
    does not go on to the rest of the slice. *)
Fixpoint updateStatus_range (s : ServiceCheck.t) (ps : list ptr)
  : M ServiceCheck.t :=
  match ps with
  | [] => ret (ServiceCheck.set_Healthy true s)
  | p :: ps' =>
      dependency ←ₘ load p;
      h ←ₘ invoke (Dependency.Name dependency) (Dependency.Level dependency)
             (Dependency.check dependency);
      store p (Dependency.set_Healthy h dependency);;ₘ
      if negb h && bool_decide (Dependency.Level dependency = LevelHard)
      then ret (ServiceCheck.set_Healthy false s)
      else updateStatus_range s ps'
  end.

Definition updateStatus (s : ServiceCheck.t) : M ServiceCheck.t :=
  updateStatus_range s (ServiceCheck.Dependencies s).

(** *** The registry as a list of records *)

(** The records behind a list of addresses, in order (nil entries dropped). *)
Definition records (h : list Dependency) (ps : list ptr) : list Dependency :=
  omap (λ p, h !! p) ps.

(** The records the slice of a check points to. *)
Definition registry (σ : State) (s : ServiceCheck.t) : list Dependency :=
  records (heap σ) (ServiceCheck.Dependencies s).

(** [probing h w ps cs w']: starting in world [w], the probes of the records
    at [ps] are invoked one after the other, each once, in this order; [cs]
    are the calls this makes and [w'] is the world they leave. *)
Inductive probing (h : list Dependency)
  : World → list ptr → list Call → World → Prop :=
| probing_nil w : probing h w [] [] w
| probing_cons w p ps d f cs w' :
    h !! p = Some d →
    Dependency.check d = Some f →
    probing h (f w).2 ps cs w' →
    probing h w (p :: ps)
      (mkCall (Dependency.Name d) (Dependency.Level d) (f w).1 :: cs) w'.

Definition names (σ : State) (s : ServiceCheck.t) : list string :=
  Dependency.Name <$> registry σ s.

(** What a cycle needs in order not to panic: no nil pointer in the slice
    and no nil probe behind it. *)
Definition usable (σ : State) (s : ServiceCheck.t) : Prop :=
  ∀ p, p ∈ ServiceCheck.Dependencies s →
    ∃ d, heap σ !! p = Some d ∧ is_Some (Dependency.check d).

(** What every check built through the package's functions satisfies: the
    slice holds distinct, allocated addresses of records with a probe and
    with distinct, non-empty names. *)
Record wf (σ : State) (s : ServiceCheck.t) : Prop := mkWf {
  wf_distinct : NoDup (ServiceCheck.Dependencies s);
  wf_alloc : ∀ p, p ∈ ServiceCheck.Dependencies s →
    ∃ d, heap σ !! p = Some d ∧ is_Some (Dependency.check d)
         ∧ Dependency.Name d ≠ "";
  wf_names : NoDup (names σ s)
}.

(** The invariant as a check that runs. *)
Definition wfb (σ : State) (s : ServiceCheck.t) : bool :=
  bool_decide (NoDup (ServiceCheck.Dependencies s))
  && forallb (λ p, match heap σ !! p with
                   | Some d => bool_decide (is_Some (Dependency.check d))
                               && bool_decide (Dependency.Name d ≠ "")
                   | None => false
                   end) (ServiceCheck.Dependencies s)
  && bool_decide (NoDup (names σ s)).

(** One operation of the package on a check, or a change of the world
    between two operations. *)
Inductive step : State * ServiceCheck.t → State * ServiceCheck.t → Prop :=
| step_register σ s name lvl check e s' σ' :
    is_uint32 lvl →
    RegisterDependency s name lvl check σ = Some ((e, s'), σ') →
    step (σ, s) (σ', s')
| step_update σ s s' σ' :
    updateStatus s σ = Some (s', σ') →
    step (σ, s) (σ', s')
| step_world σ s w :
    step (σ, s) (mkState w (heap σ) (calls σ), s).

(** The states a program reaches with the package's functions, starting
    from a fresh check. *)
Definition reachable (σ : State) (s : ServiceCheck.t) : Prop :=
  ∃ σ0 name dur s0,
    InitialiseServiceCheck name dur = (Some s0, None) ∧
    rtc step (σ0, s0) (σ, s).

End Machine.

Arguments State : clear implicits.
Arguments M : clear implicits.

(** * The wire format: Go's [encoding/json] on the two structs

    [WriteStatus] hands the check to [json.NewEncoder(w).Encode] and [Get]
    reads it back with [json.NewDecoder(resp.Body).Decode].  What these do on
    [ServiceCheck] and [Dependency] is fixed by the struct tags in health.go
    ([name], [healthy], [dependencies], [level]; [check], [duration] and [mu]
    are unexported and never written).  The library itself is not part of
    the repository: this module models its documented behaviour on these two
    types, with the encoder's default HTML escaping. *)

Module Json.

Abbreviation bytes := (list ascii).

Definition code (c : ascii) : N := N_of_ascii c.

Definition lit (s : string) : bytes := list_ascii_of_string s.

Definition quote : ascii := "034"%char.
Definition backslash : ascii := "092"%char.

(** *** Strings, as [encodeState.string] writes them *)

Definition hex : bytes := lit "0123456789abcdef".

Definition hex_digit (n : N) : ascii := nth (N.to_nat n) hex "0"%char.

(** [htmlSafeSet]: printable ASCII but for the quote, the backslash and
    the three HTML characters. *)
Definition htmlSafe (c : ascii) : bool :=
  (32 <=? code c)%N && (code c <? 128)%N
  && negb (Ascii.eqb c quote) && negb (Ascii.eqb c backslash)
  && negb (Ascii.eqb c "<") && negb (Ascii.eqb c ">") && negb (Ascii.eqb c "&").

Definition escape (c : ascii) : bytes :=
  if Ascii.eqb c backslash || Ascii.eqb c quote then [backslash; c]
  else if (code c =? 10)%N then [backslash; "n"%char]
  else if (code c =? 13)%N then [backslash; "r"%char]
  else if (code c =? 9)%N then [backslash; "t"%char]
  else backslash :: lit "u00"
       ++ [hex_digit (N.shiftr (code c) 4); hex_digit (N.land (code c) 15)].

(** What the encoder writes for one byte that is not part of a multi-byte
    sequence it escapes or drops. *)
Definition chunk (c : ascii) : bytes :=
  if (code c <? 128)%N then (if htmlSafe c then [c] else escape c) else [c].

Definition cont (c : ascii) : bool := (128 <=? code c)%N && (code c <=? 191)%N.

Definition between (lo hi : N) (c : ascii) : bool :=
  (lo <=? code c)%N && (code c <=? hi)%N.

(** [utf8.DecodeRune] as far as its size goes: the length of the well-formed
    sequence at the head of [s], or 0 where Go answers [(RuneError, 1)]. *)
Definition rune_size (s : bytes) : nat :=
  match s with
  | b0 :: b1 :: t =>
      let c0 := code b0 in
      if (c0 <? 194)%N then 0%nat
      else if (c0 <? 224)%N then (if cont b1 then 2%nat else 0%nat)
      else if (c0 <? 240)%N then
        if between (if (c0 =? 224)%N then 160 else 128)
                   (if (c0 =? 237)%N then 159 else 191) b1
        then match t with
             | b2 :: _ => if cont b2 then 3%nat else 0%nat
             | [] => 0%nat
             end
        else 0%nat
      else if (c0 <? 245)%N then
        if between (if (c0 =? 240)%N then 144 else 128)
                   (if (c0 =? 244)%N then 143 else 191) b1
        then match t with
             | b2 :: b3 :: _ => if cont b2 && cont b3 then 4%nat else 0%nat
             | _ => 0%nat
             end
        else 0%nat
      else 0%nat
  | _ => 0%nat
  end.

(** U+2028 and U+2029 (E2 80 A8, E2 80 A9), which the encoder escapes. *)
Definition line_separator (s : bytes) : option ascii :=
  match s with
  | b0 :: b1 :: b2 :: _ =>
      if (code b0 =? 226)%N && (code b1 =? 128)%N then
        if (code b2 =? 168)%N then Some "8"%char
        else if (code b2 =? 169)%N then Some "9"%char
        else None
      else None
  | _ => None
  end.

Fixpoint string_body (fuel : nat) (s : bytes) : bytes :=
  match fuel, s with
  | S fuel, b :: s' =>
      if (code b <? 128)%N then
        (if htmlSafe b then [b] else escape b) ++ string_body fuel s'
      else
        match rune_size s with
        | O => backslash :: lit "ufffd" ++ string_body fuel s'
        | S n =>
            match line_separator s with
            | Some h => backslash :: lit "u202" ++ [h]
            | None => take (S n) s
            end ++ string_body fuel (drop n s')
        end
  | _, _ => []
  end.

Definition encode_string (s : string) : bytes :=
  let b := lit s in quote :: string_body (length b) b ++ [quote].

(** *** Numbers and booleans *)

Fixpoint uint_bytes (d : Decimal.uint) : bytes :=
  match d with
  | Decimal.Nil => []
  | Decimal.D0 d => "0"%char :: uint_bytes d
  | Decimal.D1 d => "1"%char :: uint_bytes d
  | Decimal.D2 d => "2"%char :: uint_bytes d
  | Decimal.D3 d => "3"%char :: uint_bytes d
  | Decimal.D4 d => "4"%char :: uint_bytes d
  | Decimal.D5 d => "5"%char :: uint_bytes d
  | Decimal.D6 d => "6"%char :: uint_bytes d
  | Decimal.D7 d => "7"%char :: uint_bytes d
  | Decimal.D8 d => "8"%char :: uint_bytes d
  | Decimal.D9 d => "9"%char :: uint_bytes d
  end.

(** The value of a [Z] read as a [uint32]. *)
Definition uint32 (z : Z) : N := Z.to_N (z mod 4294967296).

Definition encode_uint32 (z : Z) : bytes := uint_bytes (N.to_uint (uint32 z)).

Definition encode_bool (b : bool) : bytes :=
  if b then lit "true" else lit "false".

(** *** The two structs *)

(** An object key with its colon. *)
Definition key (k : string) : bytes := quote :: lit k ++ [quote; ":"%char].

Definition encode_Dependency {World} (d : Dependency.t World) : bytes :=
  lit "{" ++ key "name" ++ encode_string (Dependency.Name d)
  ++ lit "," ++ key "healthy" ++ encode_bool (Dependency.Healthy d)
  ++ lit "," ++ key "level" ++ encode_uint32 (Dependency.Level d)
  ++ lit "}".

(** An element of [[]*Dependency]; a nil pointer is written [null]. *)
Definition encode_pointer {World} (h : list (Dependency.t World)) (p : ptr)
  : bytes :=
  match h !! p with
  | Some d => encode_Dependency d
  | None => lit "null"
  end.

Fixpoint join (sep : bytes) (parts : list bytes) : bytes :=
  match parts with
  | [] => []
  | [x] => x
  | x :: rest => x ++ sep ++ join sep rest
  end.

(** A nil slice is written [null]; the package never builds an empty
    slice that is not nil. *)
Definition encode_Dependencies {World} (h : list (Dependency.t World))
    (ps : list ptr) : bytes :=
  match ps with
  | [] => lit "null"
  | _ => lit "[" ++ join (lit ",") (encode_pointer h <$> ps) ++ lit "]"
  end.

Definition encode_ServiceCheck {World} (h : list (Dependency.t World))
    (s : ServiceCheck.t) : bytes :=
  lit "{" ++ key "name" ++ encode_string (ServiceCheck.Name s)
  ++ lit "," ++ key "healthy" ++ encode_bool (ServiceCheck.Healthy s)
  ++ lit "," ++ key "dependencies"
  ++ encode_Dependencies h (ServiceCheck.Dependencies s)
  ++ lit "}".

(** [Encoder.Encode]: the value, then a newline. *)
Definition Encode {World} (h : list (Dependency.t World)) (s : ServiceCheck.t)
  : bytes :=
  encode_ServiceCheck h s ++ ["010"%char].

(** ** Reading

    The decoder first delimits a value with the scanner, then stores it
    into the target struct.  Here the scanner builds a syntax tree and
    [Unmarshal] stores the tree. *)

#[local] Unset Elimination Schemes.

Inductive json :=
| JNull
| JBool (b : bool)
| JNumber (literal : bytes)
| JString (s : bytes)
| JArray (elements : list json)
| JObject (members : list (bytes * json)).

#[local] Set Elimination Schemes.

Definition is_space (c : ascii) : bool :=
  Ascii.eqb c " " || (code c =? 9)%N || (code c =? 10)%N || (code c =? 13)%N.

Fixpoint skip_space (s : bytes) : bytes :=
  match s with
  | c :: s' => if is_space c then skip_space s' else s
  | [] => []
  end.

Definition is_digit (c : ascii) : bool := between 48 57 c.

Definition is_hex (c : ascii) : bool :=
  is_digit c || between 97 102 c || between 65 70 c.

Definition hex_value (c : ascii) : N :=
  if is_digit c then (code c - 48)%N
  else if between 97 102 c then (code c - 87)%N
  else (code c - 55)%N.

(** Puts [l] in front of the literal a scan returns. *)
Definition keep (l : bytes) (r : option (bytes * bytes)) : option (bytes * bytes) :=
  match r with
  | Some (body, rest) => Some (l ++ body, rest)
  | None => None
  end.

(** The scanner inside a string literal, after the opening quote: the raw
    literal up to the closing quote, and what follows it. *)
Fixpoint scan_string (s : bytes) : option (bytes * bytes) :=
  match s with
  | [] => None
  | c :: s1 =>
      if Ascii.eqb c quote then Some ([], s1)
      else if Ascii.eqb c backslash then
        match s1 with
        | e :: s2 =>
            if existsb (Ascii.eqb e) (quote :: backslash :: lit "/bfnrt")
            then keep [c; e] (scan_string s2)
            else if Ascii.eqb e "u" then
              match s2 with
              | h1 :: h2 :: h3 :: h4 :: s6 =>
                  if is_hex h1 && is_hex h2 && is_hex h3 && is_hex h4
                  then keep [c; e; h1; h2; h3; h4] (scan_string s6)
                  else None
              | _ => None
              end
            else None
        | [] => None
        end
      else if (code c <? 32)%N then None
      else keep [c] (scan_string s1)
  end.

(** [utf8.EncodeRune] *)
Definition encode_rune (r : N) : bytes :=
  let b (n : N) := ascii_of_N n in
  if (r <? 128)%N then [b r]
  else if (r <? 2048)%N then
    [b (192 + N.shiftr r 6)%N; b (128 + N.land r 63)%N]
  else if ((55296 <=? r) && (r <=? 57343) || (1114111 <? r))%N then
    [b 239%N; b 191%N; b 189%N]
  else if (r <? 65536)%N then
    [b (224 + N.shiftr r 12)%N; b (128 + N.land (N.shiftr r 6) 63)%N;
     b (128 + N.land r 63)%N]
  else
    [b (240 + N.shiftr r 18)%N; b (128 + N.land (N.shiftr r 12) 63)%N;
     b (128 + N.land (N.shiftr r 6) 63)%N; b (128 + N.land r 63)%N].

(** [getu4]: the value of [\uXXXX] at the head of [s]. *)
Definition getu4 (s : bytes) : option N :=
  match s with
  | c :: u :: h1 :: h2 :: h3 :: h4 :: _ =>
      if Ascii.eqb c backslash && Ascii.eqb u "u"
         && is_hex h1 && is_hex h2 && is_hex h3 && is_hex h4
      then Some (4096 * hex_value h1 + 256 * hex_value h2
                 + 16 * hex_value h3 + hex_value h4)%N
      else None
  | _ => None
  end.

Definition simple_escape (e : ascii) : option ascii :=
  if Ascii.eqb e quote || Ascii.eqb e backslash || Ascii.eqb e "/" then Some e
  else if Ascii.eqb e "b" then Some "008"%char
  else if Ascii.eqb e "f" then Some "012"%char
  else if Ascii.eqb e "n" then Some "010"%char
  else if Ascii.eqb e "r" then Some "013"%char
  else if Ascii.eqb e "t" then Some "009"%char
  else None.

(** [unquote]: the string a scanned literal stands for.  Escapes are
    resolved, a surrogate pair becomes one rune, and whatever is not
    well-formed UTF-8 becomes U+FFFD. *)
Fixpoint unquote_loop (fuel : nat) (s : bytes) : bytes :=
  match fuel, s with
  | S fuel, c :: s1 =>
      if Ascii.eqb c backslash then
        match s1 with
        | e :: s2 =>
            match simple_escape e with
            | Some x => x :: unquote_loop fuel s2
            | None =>
                match getu4 s with
                | Some r =>
                    let s6 := drop 6 s in
                    if ((55296 <=? r) && (r <=? 57343))%N then
                      match getu4 s6 with
                      | Some r2 =>
                          if ((r <? 56320) && (56320 <=? r2) && (r2 <=? 57343))%N
                          then encode_rune
                                 (65536 + 1024 * (r - 55296) + (r2 - 56320))%N
                               ++ unquote_loop fuel (drop 6 s6)
                          else encode_rune 65533%N ++ unquote_loop fuel s6
                      | None => encode_rune 65533%N ++ unquote_loop fuel s6
                      end
                    else encode_rune r ++ unquote_loop fuel s6
                | None => []
                end
            end
        | [] => []
        end
      else if (code c <? 128)%N then c :: unquote_loop fuel s1
      else
        match rune_size s with
        | O => encode_rune 65533%N ++ unquote_loop fuel s1
        | S n => take (S n) s ++ unquote_loop fuel (drop n s1)
        end
  | _, _ => []
  end.

Definition unquote (literal : bytes) : bytes :=
  unquote_loop (length literal) literal.

Fixpoint span_digits (s : bytes) : bytes * bytes :=
  match s with
  | c :: s' =>
      if is_digit c then let r := span_digits s' in (c :: r.1, r.2)
      else ([], s)
  | [] => ([], [])
  end.

(** The scanner on a number: an optional minus, [0] or a run of digits not
    starting with [0], an optional fraction, an optional exponent. *)
Definition scan_number (s : bytes) : option (bytes * bytes) :=
  let sign := match s with
              | c :: s' => if Ascii.eqb c "-" then ([c], s') else ([], s)
              | [] => ([], s)
              end in
  match sign.2 with
  | c :: s1 =>
      if is_digit c then
        let int := if Ascii.eqb c "0" then ([c], s1)
                   else let r := span_digits s1 in (c :: r.1, r.2) in
        let frac :=
          match int.2 with
          | dot :: s2 =>
              if Ascii.eqb dot "." then
                let r := span_digits s2 in
                match r.1 with
                | [] => None
                | _ => Some (dot :: r.1, r.2)
                end
              else Some ([], int.2)
          | [] => Some ([], [])
          end in
        match frac with
        | None => None
        | Some frac =>
            let exp :=
              match frac.2 with
              | e :: s3 =>
                  if Ascii.eqb e "e" || Ascii.eqb e "E" then
                    let sg := match s3 with
                              | g :: s4 =>
                                  if Ascii.eqb g "+" || Ascii.eqb g "-"
                                  then ([g], s4) else ([], s3)
                              | [] => ([], s3)
                              end in
                    let r := span_digits sg.2 in
                    match r.1 with
                    | [] => None
                    | _ => Some (e :: sg.1 ++ r.1, r.2)
                    end
                  else Some ([], frac.2)
              | [] => Some ([], [])
              end in
            match exp with
            | None => None
            | Some exp => Some (sign.1 ++ int.1 ++ frac.1 ++ exp.1, exp.2)
            end
        end
      else None
  | [] => None
  end.

(** [s] without the prefix [p], if it starts with it. *)
Fixpoint strip (p s : bytes) : option bytes :=
  match p, s with
  | [], _ => Some s
  | a :: p', b :: s' => if Ascii.eqb a b then strip p' s' else None
  | _ :: _, [] => None
  end.

(** The value at the head of [s] (after white space) and the rest of [s].
    [fuel] bounds the nesting and the number of members; the length of the
    input is always enough. *)
Fixpoint parse_value (fuel : nat) (s : bytes) : option (json * bytes) :=
  match fuel with
  | O => None
  | S fuel =>
      match skip_space s with
      | [] => None
      | c :: r =>
          if Ascii.eqb c "{" then
            match skip_space r with
            | c' :: r' =>
                if Ascii.eqb c' "}" then Some (JObject [], r')
                else parse_members fuel (c' :: r') []
            | [] => None
            end
          else if Ascii.eqb c "[" then
            match skip_space r with
            | c' :: r' =>
                if Ascii.eqb c' "]" then Some (JArray [], r')
                else parse_elements fuel (c' :: r') []
            | [] => None
            end
          else if Ascii.eqb c quote then
            match scan_string r with
            | Some (l, r') => Some (JString (unquote l), r')
            | None => None
            end
          else if Ascii.eqb c "t" then
            match strip (lit "rue") r with
            | Some r' => Some (JBool true, r')
            | None => None
            end
          else if Ascii.eqb c "f" then
            match strip (lit "alse") r with
            | Some r' => Some (JBool false, r')
            | None => None
            end
          else if Ascii.eqb c "n" then
            match strip (lit "ull") r with
            | Some r' => Some (JNull, r')
            | None => None
            end
          else
            match scan_number (c :: r) with
            | Some (l, r') => Some (JNumber l, r')
            | None => None
            end
      end
  end
with parse_members (fuel : nat) (s : bytes) (acc : list (bytes * json))
  : option (json * bytes) :=
  match fuel with
  | O => None
  | S fuel =>
      match s with
      | c :: r =>
          if Ascii.eqb c quote then
            match scan_string r with
            | Some (k, r1) =>
                match skip_space r1 with
                | colon :: r2 =>
                    if Ascii.eqb colon ":" then
                      match parse_value fuel r2 with
                      | Some (v, r3) =>
                          let acc' := acc ++ [(unquote k, v)] in
                          match skip_space r3 with
                          | d :: r4 =>
                              if Ascii.eqb d "," then
                                parse_members fuel (skip_space r4) acc'
                              else if Ascii.eqb d "}" then
                                Some (JObject acc', r4)
                              else None
                          | [] => None
                          end
                      | None => None
                      end
                    else None
                | [] => None
                end
            | None => None
            end
          else None
      | [] => None
      end
  end
with parse_elements (fuel : nat) (s : bytes) (acc : list json)
  : option (json * bytes) :=
  match fuel with
  | O => None
  | S fuel =>
      match parse_value fuel s with
      | Some (v, r) =>
          let acc' := acc ++ [v] in
          match skip_space r with
          | d :: r' =>
              if Ascii.eqb d "," then parse_elements fuel r' acc'
              else if Ascii.eqb d "]" then Some (JArray acc', r')
              else None
          | [] => None
          end
      | None => None
      end
  end.

(** *** Storing a value into the structs *)

Inductive result (A : Type) :=
| Ok (a : A)
| Err (e : error).
Arguments Ok {A}.
Arguments Err {A}.

Definition and_then {A B} (r : result A) (k : A → result B) : result B :=
  match r with
  | Ok a => k a
  | Err e => Err e
  end.

Definition result_map {A B} (f : A → B) (r : result A) : result B :=
  and_then r (λ a, Ok (f a)).

(** [SyntaxError] (and [io.EOF] on an empty body), [UnmarshalTypeError]. *)
Definition syntax_error : error := ErrLibrary "json: syntax error".
Definition type_error : error := ErrLibrary "json: cannot unmarshal".

Definition lower (c : ascii) : ascii :=
  if between 65 90 c then ascii_of_N (code c + 32) else c.

(** [bytes.EqualFold] against a field name in lower-case ASCII: letters
    match whatever their case, and U+017F and U+212A fold to [s] and [k]. *)
Fixpoint equal_fold (field k : bytes) : bool :=
  match field, k with
  | [], [] => true
  | f :: field', c :: k' =>
      if Ascii.eqb (lower c) f then equal_fold field' k'
      else if Ascii.eqb f "s" then
        match strip ["197"%char; "191"%char] k with
        | Some k'' => equal_fold field' k''
        | None => false
        end
      else if Ascii.eqb f "k" then
        match strip ["226"%char; "132"%char; "170"%char] k with
        | Some k'' => equal_fold field' k''
        | None => false
        end
      else false
  | _, _ => false
  end.

Fixpoint index_where (p : string → bool) (fields : list string) : option nat :=
  match fields with
  | [] => None
  | f :: fields' => if p f then Some 0%nat else S <$> index_where p fields'
  end.

(** The field a key names: the one with that very name, else the first
    that matches up to case. *)
Definition find_field (fields : list string) (k : bytes) : option nat :=
  match index_where (λ f, bool_decide (lit f = k)) fields with
  | Some i => Some i
  | None => index_where (λ f, equal_fold (lit f) k) fields
  end.

End Json.

(** The exported fields of the two structs, as a decoded value holds them:
    the records a decoded slice points to are given in place, [None] being
    the nil pointer. *)
Module Wire.

Module Dependency.
Record t := mk {
  Name : string;
  Healthy : bool;
  Level : Z
}.
Definition zero : t := mk "" false 0.
End Dependency.

Module ServiceCheck.
Record t := mk {
  Name : string;
  Healthy : bool;
  Dependencies : list (option Dependency.t)
}.
Definition zero : t := mk "" false [].
End ServiceCheck.

End Wire.

Module Unmarshal.
Import Json.

Definition store_string (cur : string) (j : json) : result string :=
  match j with
  | JString s => Ok (string_of_list_ascii s)
  | JNull => Ok cur
  | _ => Err type_error
  end.

Definition store_bool (cur : bool) (j : json) : result bool :=
  match j with
  | JBool b => Ok b
  | JNull => Ok cur
  | _ => Err type_error
  end.

Definition digit_uint (c : ascii) (d : Decimal.uint) : Decimal.uint :=
  match (code c - 48)%N with
  | 0%N => Decimal.D0 d
  | 1%N => Decimal.D1 d
  | 2%N => Decimal.D2 d
  | 3%N => Decimal.D3 d
  | 4%N => Decimal.D4 d
  | 5%N => Decimal.D5 d
  | 6%N => Decimal.D6 d
  | 7%N => Decimal.D7 d
  | 8%N => Decimal.D8 d
  | _ => Decimal.D9 d
  end.

Definition bytes_uint (l : bytes) : Decimal.uint :=
  foldr digit_uint Decimal.Nil l.

(** [strconv.ParseUint] and the overflow test of a [uint32] field. *)
Definition store_uint32 (cur : Z) (j : json) : result Z :=
  match j with
  | JNumber l =>
      if forallb is_digit l
         && (N.of_uint (bytes_uint l) <=? 4294967295)%N
      then Ok (Z.of_N (N.of_uint (bytes_uint l)))
      else Err type_error
  | JNull => Ok cur
  | _ => Err type_error
  end.

Fixpoint store_Dependency (cur : Wire.Dependency.t)
    (members : list (bytes * json)) : result Wire.Dependency.t :=
  match members with
  | [] => Ok cur
  | (k, v) :: members' =>
      and_then
        match find_field ["name"; "healthy"; "level"] k with
        | Some 0%nat =>
            and_then (store_string (Wire.Dependency.Name cur) v) (λ x,
              Ok (Wire.Dependency.mk x (Wire.Dependency.Healthy cur)
                    (Wire.Dependency.Level cur)))
        | Some 1%nat =>
            and_then (store_bool (Wire.Dependency.Healthy cur) v) (λ x,
              Ok (Wire.Dependency.mk (Wire.Dependency.Name cur) x
                    (Wire.Dependency.Level cur)))
        | Some _ =>
            and_then (store_uint32 (Wire.Dependency.Level cur) v) (λ x,
              Ok (Wire.Dependency.mk (Wire.Dependency.Name cur)
                    (Wire.Dependency.Healthy cur) x))
        | None => Ok cur
        end
        (λ cur', store_Dependency cur' members')
  end.

(** Into a [*Dependency]: [null] makes it nil, an object fills the record
    it points to, allocated first if it was nil. *)
Definition store_pointer (cur : option Wire.Dependency.t) (j : json)
  : result (option Wire.Dependency.t) :=
  match j with
  | JNull => Ok None
  | JObject members =>
      and_then (store_Dependency (default Wire.Dependency.zero cur) members)
        (λ d, Ok (Some d))
  | _ => Err type_error
  end.

(** Into the elements of a slice, reusing the elements it already has. *)
Fixpoint store_elements (cur : list (option Wire.Dependency.t))
    (js : list json) : result (list (option Wire.Dependency.t)) :=
  match js with
  | [] => Ok []
  | j :: js' =>
      and_then (store_pointer (mjoin (head cur)) j) (λ x,
        and_then (store_elements (tail cur) js') (λ xs, Ok (x :: xs)))
  end.

Definition store_slice (cur : list (option Wire.Dependency.t)) (j : json)
  : result (list (option Wire.Dependency.t)) :=
  match j with
  | JNull => Ok []
  | JArray js => store_elements cur js
  | _ => Err type_error
  end.

Fixpoint store_ServiceCheck (cur : Wire.ServiceCheck.t)
    (members : list (bytes * json)) : result Wire.ServiceCheck.t :=
  match members with
  | [] => Ok cur
  | (k, v) :: members' =>
      and_then
        match find_field ["name"; "healthy"; "dependencies"] k with
        | Some 0%nat =>
            and_then (store_string (Wire.ServiceCheck.Name cur) v) (λ x,
              Ok (Wire.ServiceCheck.mk x (Wire.ServiceCheck.Healthy cur)
                    (Wire.ServiceCheck.Dependencies cur)))
        | Some 1%nat =>
            and_then (store_bool (Wire.ServiceCheck.Healthy cur) v) (λ x,
              Ok (Wire.ServiceCheck.mk (Wire.ServiceCheck.Name cur) x
                    (Wire.ServiceCheck.Dependencies cur)))
        | Some _ =>
            and_then (store_slice (Wire.ServiceCheck.Dependencies cur) v) (λ x,
              Ok (Wire.ServiceCheck.mk (Wire.ServiceCheck.Name cur)
                    (Wire.ServiceCheck.Healthy cur) x))
        | None => Ok cur
        end
        (λ cur', store_ServiceCheck cur' members')
  end.

(** Into a [*ServiceCheck] that is not nil: [null] leaves it as it is. *)
Definition store (cur : Wire.ServiceCheck.t) (j : json)
  : result Wire.ServiceCheck.t :=
  match j with
  | JNull => Ok cur
  | JObject members => store_ServiceCheck cur members
  | _ => Err type_error
  end.

(** [json.NewDecoder(body).Decode(&response)], with [response] the zero
    [ServiceCheck]: the first value of the stream is read and stored. *)
Definition Decode (body : bytes) : result Wire.ServiceCheck.t :=
  match parse_value (length body) body with
  | Some (j, _) => store Wire.ServiceCheck.zero j
  | None => Err syntax_error
  end.

End Unmarshal.

(** ** What an encoding stands for

    The syntax tree the encoder's output has, and the value the decoder
    builds from it.  A pointer outside the store is nil. *)
Module Image.
Import Json.

(** A string after a trip through the encoder and [unquote]: the string
    itself, with U+FFFD for whatever in it was not UTF-8. *)
Definition string_image (s : string) : bytes :=
  unquote (string_body (length (lit s)) (lit s)).

Definition tree_Dependency {World} (d : Dependency.t World) : json :=
  JObject [ (lit "name", JString (string_image (Dependency.Name d)));
            (lit "healthy", JBool (Dependency.Healthy d));
            (lit "level", JNumber (encode_uint32 (Dependency.Level d))) ].

Definition tree_pointer {World} (h : list (Dependency.t World)) (p : ptr) : json :=
  match h !! p with
  | Some d => tree_Dependency d
  | None => JNull
  end.

Definition tree_ServiceCheck {World} (h : list (Dependency.t World))
    (s : ServiceCheck.t) : json :=
  JObject [ (lit "name", JString (string_image (ServiceCheck.Name s)));
            (lit "healthy", JBool (ServiceCheck.Healthy s));
            (lit "dependencies",
             match ServiceCheck.Dependencies s with
             | [] => JNull
             | _ => JArray (tree_pointer h <$> ServiceCheck.Dependencies s)
             end) ].

Definition wire_Dependency {World} (d : Dependency.t World) : Wire.Dependency.t :=
  Wire.Dependency.mk
    (string_of_list_ascii (string_image (Dependency.Name d)))
    (Dependency.Healthy d)
    (Dependency.Level d mod 4294967296).

Definition wire_ServiceCheck {World} (h : list (Dependency.t World))
    (s : ServiceCheck.t) : Wire.ServiceCheck.t :=
  Wire.ServiceCheck.mk
    (string_of_list_ascii (string_image (ServiceCheck.Name s)))
    (ServiceCheck.Healthy s)
    ((λ p, wire_Dependency <$> h !! p) <$> ServiceCheck.Dependencies s).

End Image.

(** * Reporting: [WriteStatus] and [HTTPHandler] *)

(** [io.Writer] *)
Class Writer (W : Type) := Write : Json.bytes → W → W * option error.

(** [http.ResponseWriter], as far as the handler uses it. *)
Class ResponseWriter (W : Type) := {
  ResponseWriter_Writer :: Writer W;
  WriteHeader : Z → W → W
}.

Section Reporting.
Context {World : Type} {W : Type}.

(** [json.NewEncoder(w).Encode(s)]: one [Write] of the whole encoding.
    Nothing in a [ServiceCheck] is beyond the encoder, so the only error is
    the writer's. *)
Definition WriteStatus `{!Writer W} (σ : State World) (s : ServiceCheck.t)
    (w : W) : W * option error :=
  Write (Json.Encode (heap σ) s) w.

(** The handler drops the error of [WriteStatus]; the request is not read. *)
Definition HTTPHandler `{!ResponseWriter W} (σ : State World)
    (s : ServiceCheck.t) (w : W) : W :=
  let w' := if getHealth s then WriteHeader 200 w else WriteHeader 503 w in
  (WriteStatus σ s w').1.

End Reporting.

(** A response writer that keeps what was asked of it, in order. *)
Inductive Written :=
| Header (code : Z)
| Body (b : Json.bytes).

Definition Recorder := list Written.

#[global] Instance Recorder_Writer : Writer Recorder :=
  λ b w, (w ++ [Body b], None).

#[global] Instance Recorder_ResponseWriter : ResponseWriter Recorder := {
  WriteHeader code w := w ++ [Header code]
}.

(** * Remote checks: [Check200Helper] and [Get] *)

Record Response := mkResponse {
  StatusCode : Z;
  ResponseBody : Json.bytes
}.

Definition StatusOK : Z := 200.

Section Remote.
(** [net/url] and [net/http] are outside the repository; the helpers are
    modelled over whatever these do.  [Net] is the state of the network and
    of the remote services. *)
Context {URL Request Net : Type}.
Variable ParseRequestURI : string → Json.result URL.
Variable URL_String : URL → string.
Variable NewRequest : string → string → Json.result Request.
Variable HTTPClient_Do : Request → Net → Json.result Response * Net.

Definition Check200Helper (rawURL : string) (n : Net)
  : (bool * option error) * Net :=
  match ParseRequestURI rawURL with
  | Json.Err err => ((false, Some err), n)
  | Json.Ok u =>
      match NewRequest "GET" (URL_String u) with
      | Json.Err err => ((false, Some err), n)
      | Json.Ok req =>
          match HTTPClient_Do req n with
          | (Json.Err err, n') => ((false, Some err), n')
          | (Json.Ok resp, n') =>
              if decide (StatusCode resp ≠ StatusOK) then ((false, None), n')
              else ((true, None), n')
          end
      end
  end.

Definition Get (url : string) (n : Net) : (bool * option error) * Net :=
  match NewRequest "GET" url with
  | Json.Err err => ((false, Some err), n)
  | Json.Ok r =>
      match HTTPClient_Do r n with
      | (Json.Err err, n') => ((false, Some err), n')
      | (Json.Ok resp, n') =>
          if decide (StatusCode resp ≠ StatusOK) then ((false, None), n')
          else
            match Unmarshal.Decode (ResponseBody resp) with
            | Json.Err err => ((false, Some err), n')
            | Json.Ok response =>
                ((Wire.ServiceCheck.Healthy response, None), n')
            end
      end
  end.

End Remote.

(** ** A small running system

    The world is a clock that every probe advances by one tick, so the
    number of probe invocations can be read off the world. *)

Definition up : nat → bool * nat := λ w, (true, S w).
Definition down : nat → bool * nat := λ w, (false, S w).

(** Three registered dependencies: a healthy Hard one, a failing Soft one,
    a failing Hard one, and a last one that is never reached. *)
Definition demo_heap : list (Dependency.t nat) :=
  [ Dependency.mk "db" true LevelHard (Some up);
    Dependency.mk "cache" true LevelSoft (Some down);
    Dependency.mk "queue" true LevelHard (Some down);
    Dependency.mk "mail" true LevelHard (Some up) ].

Definition demo_state : State nat := mkState 0%nat demo_heap [].

Definition demo_check : ServiceCheck.t :=
  ServiceCheck.mk "api" true [0; 1; 2; 3]%nat 5000000000.

(** A registry whose only level is the out-of-range value 2. *)
Definition odd_state : State nat :=
  mkState 0%nat [Dependency.mk "legacy" true 2 (Some down)] [].

Definition odd_check : ServiceCheck.t :=
  ServiceCheck.mk "api" true [0%nat] 5000000000.

(** The table of [TestRegisterDependency]: on a fresh check, register the
    row's dependency, run one cycle, and read [IsHealthy]. *)
Definition register_then_cycle (name : string) (lvl : Level)
    (check : option (nat → bool * nat)) : option (option error * bool) :=
  match InitialiseServiceCheck "test" 50000000 with
  | (Some s, _) =>
      match RegisterDependency s name lvl check (mkState 0%nat [] []) with
      | Some ((err, s1), σ1) =>
          match updateStatus s1 σ1 with
          | Some (s2, _) => Some (err, IsHealthy s2)
          | None => None
          end
      | None => None
      end
  | (None, _) => None
  end.

(** Wire text written with apostrophes for the quotes. *)
Definition wire (s : string) : Json.bytes :=
  (λ c, if Ascii.eqb c "'" then Json.quote else c) <$> Json.lit s.

Definition newline : ascii := "010"%char.

(** * The rest of the package *)

Section Lookup.
Context {World : Type}.

(** [(s *ServiceCheck) Dependency(name)]: the scan of [s.Dependencies]. *)
Definition ServiceCheck_Dependency (s : ServiceCheck.t) (name : string)
  : M World (option ptr * option error) :=
  lookup_Dependency (ServiceCheck.Dependencies s) name.

(** The goroutine of [WaitForDependencies], taken alone: a cycle, then
    [cancel] and [break] if the check is healthy, else a sleep of a second
    and the next round.  [sleep] is what that second does to the world;
    [rounds] bounds the rounds looked at.  The answer is [true] when the loop
    has left through [break], [false] when it is still running. *)
Fixpoint wait_loop (rounds : nat) (sleep : World → World) (s : ServiceCheck.t)
  : M World (bool * ServiceCheck.t) :=
  match rounds with
  | O => ret (false, s)
  | S rounds =>
      bind (updateStatus s) (λ s1,
        if getHealth s1 then ret (true, s1)
        else λ σ, wait_loop rounds sleep s1
                    (mkState (sleep (world σ)) (heap σ) (calls σ)))
  end.

(** The goroutine of [StartCheck]: a cycle, a sleep of [s.duration], and
    the next round, without end.  [sleep] is what a sleep of that length
    does to the world; [rounds] bounds the rounds looked at. *)
Fixpoint check_loop (rounds : nat) (sleep : Z → World → World)
    (s : ServiceCheck.t) : M World ServiceCheck.t :=
  match rounds with
  | O => ret s
  | S rounds =>
      bind (updateStatus s) (λ s1 σ,
        check_loop rounds sleep s1
          (mkState (sleep (ServiceCheck.duration s1) (world σ))
             (heap σ) (calls σ)))
  end.

(** The invariant of [wf], with what the types of the fields add: a service
    name that [InitialiseServiceCheck] accepted and levels that are
    [uint32]. *)
Definition well_typed (σ : State World) (s : ServiceCheck.t) : Prop :=
  wf σ s ∧ ServiceCheck.Name s ≠ "" ∧
  ∀ d, d ∈ registry σ s → is_uint32 (Dependency.Level d).

End Lookup.

(** ** The remote helpers with an optional client (unnamed/part_000) *)

Section RemoteOptional.
Context {URL Request Net : Type}.
Variable ParseRequestURI : string → Json.result URL.
Variable URL_String : URL → string.
Variable NewRequest : string → string → Json.result Request.

(** A [*http.Client], as the helpers use it: its [Do] method.  [None] is the
    nil client, on which [Do] panics. *)
Definition Client : Type := option (Request → Net → Json.result Response * Net).

(** The package variable [HTTPClient]. *)
Variable HTTPClient : Client.

(** [getHTTPClient]: the first of the optional clients, or the default. *)
Definition getHTTPClient (optionalClient : list Client) : Client :=
  match optionalClient with
  | c :: _ => c
  | [] => HTTPClient
  end.

Definition client_Do (client : Client) (req : Request) (n : Net)
  : option (Json.result Response * Net) :=
  match client with
  | Some do => Some (do req n)
  | None => None
  end.

Definition Check200Helper_opt (rawURL : string) (optionalClient : list Client)
    (n : Net) : option ((bool * option error) * Net) :=
  let client := getHTTPClient optionalClient in
  match ParseRequestURI rawURL with
  | Json.Err err => Some ((false, Some err), n)
  | Json.Ok u =>
      match NewRequest "GET" (URL_String u) with
      | Json.Err err => Some ((false, Some err), n)
      | Json.Ok req =>
          match client_Do client req n with
          | None => None
          | Some (Json.Err err, n') => Some ((false, Some err), n')
          | Some (Json.Ok resp, n') =>
              if decide (StatusCode resp ≠ StatusOK)
              then Some ((false, None), n')
              else Some ((true, None), n')
          end
      end
  end.

Definition Get_opt (url : string) (optionalClient : list Client) (n : Net)
  : option ((bool * option error) * Net) :=
  let client := getHTTPClient optionalClient in
  match NewRequest "GET" url with
  | Json.Err err => Some ((false, Some err), n)
  | Json.Ok r =>
      match client_Do client r n with
      | None => None
      | Some (Json.Err err, n') => Some ((false, Some err), n')
      | Some (Json.Ok resp, n') =>
          if decide (StatusCode resp ≠ StatusOK) then Some ((false, None), n')
          else
            match Unmarshal.Decode (ResponseBody resp) with
            | Json.Err err => Some ((false, Some err), n')
            | Json.Ok response =>
                Some ((Wire.ServiceCheck.Healthy response, None), n')
            end
      end
  end.

End RemoteOptional.

(** ** Names the wire format carries unchanged *)

(** A string of ASCII bytes only. *)
Definition is_ascii (s : string) : bool :=
  forallb (λ c, (Json.code c <? 128)%N) (Json.lit s).

(** The exported fields of a record, as they are. *)
Definition view_Dependency {World} (d : Dependency.t World) : Wire.Dependency.t :=
  Wire.Dependency.mk (Dependency.Name d) (Dependency.Healthy d)
    (Dependency.Level d).

Definition view_ServiceCheck {World} (h : list (Dependency.t World))
    (s : ServiceCheck.t) : Wire.ServiceCheck.t :=
  Wire.ServiceCheck.mk (ServiceCheck.Name s) (ServiceCheck.Healthy s)
    ((λ p, view_Dependency <$> h !! p) <$> ServiceCheck.Dependencies s).

(** ** More of the running system *)

(** A state built with the package's functions alone: a fresh check, the
    registration of a Hard dependency that is up and of a Soft one that is
    down, and one cycle. *)
Definition live_state : State nat :=
  mkState 4%nat
    [ Dependency.mk "db" true LevelHard (Some up);
      Dependency.mk "queue" false LevelSoft (Some down) ]
    [ mkCall "db" 1 true; mkCall "queue" 0 false;
      mkCall "db" 1 true; mkCall "queue" 0 false ].

Definition live_check : ServiceCheck.t :=
  ServiceCheck.mk "api" true [0; 1]%nat 5000000000.



(** A network of one service, which answers every request with what its
    handler writes for [live_check]; the state of the network is the number
    of requests made. *)
Definition demo_ParseRequestURI (rawURL : string) : Json.result string :=
  if decide (rawURL = "") then Json.Err (ErrLibrary "empty url")
  else Json.Ok rawURL.

Definition demo_NewRequest (method url : string) : Json.result string :=
  Json.Ok url.

Definition demo_Do (req : string) (n : nat) : Json.result Response * nat :=
  (Json.Ok (mkResponse 200 (Json.Encode (heap live_state) live_check)), S n).

(** * Properties of the registry and of the aggregation cycle *)

Section MachineFacts.
Context {World : Type}.
Implicit Types (σ : State World) (s : ServiceCheck.t) (d : Dependency.t World).
Implicit Types (ps : list ptr) (name : string) (hp : list (Dependency.t World)).

Lemma Forall2_impl_elem {A B} (R R' : A → B → Prop) (l : list A) (k : list B) :
  Forall2 R l k → (∀ x y, x ∈ l → R x y → R' x y) → Forall2 R' l k.
Proof.
  induction 1 as [|x y l k HR _ IH]; intros Himp; constructor.
  - apply Himp; [set_solver|done].
  - apply IH. intros x' y' Hx'. apply Himp. set_solver.
Qed.

Lemma set_Healthy_twice b b' d :
  Dependency.set_Healthy b (Dependency.set_Healthy b' d) = Dependency.set_Healthy b d.
Proof. reflexivity. Qed.

Lemma set_Healthy_self d : Dependency.set_Healthy (Dependency.Healthy d) d = d.
Proof. by destruct d. Qed.

Lemma records_app hp ps qs :
  records hp (ps ++ qs) = records hp ps ++ records hp qs.
Proof. apply omap_app. Qed.

Lemma records_cons_Some hp p ps d :
  hp !! p = Some d → records hp (p :: ps) = d :: records hp ps.
Proof. intros Hp. unfold records. simpl. by rewrite Hp. Qed.

(** *** The duplicate scan *)

Lemma registered_spec ps name σ :
  Forall (λ p, is_Some (heap σ !! p)) ps →
  registered ps name σ
  = Some (bool_decide (name ∈ Dependency.Name <$> records (heap σ) ps), σ).
Proof.
  induction 1 as [|p ps [d Hd] _ IH]; [done|].
  rewrite (records_cons_Some _ _ _ _ Hd), fmap_cons.
  simpl. unfold bind, load. rewrite Hd. destruct (decide (Dependency.Name d = name)) as [->|Hne].
  - unfold ret. by rewrite bool_decide_eq_true_2 by set_solver.
  - rewrite IH. do 2 f_equal. apply bool_decide_ext. set_solver.
Qed.

(** *** The lookup *)

(** A lookup reads the store and changes nothing; it finds a record exactly
    when the name is registered, and what it returns is the address the
    slice holds. *)
Lemma lookup_Dependency_spec ps name σ :
  Forall (λ p, is_Some (heap σ !! p)) ps →
  ∃ r, lookup_Dependency ps name σ = Some (r, σ) ∧
    match r with
    | (Some p, None) =>
        p ∈ ps ∧ ∃ d, heap σ !! p = Some d ∧ Dependency.Name d = name
    | (None, Some e) =>
        e = ErrNoDependency ∧ name ∉ Dependency.Name <$> records (heap σ) ps
    | _ => False
    end.
Proof.
  induction 1 as [|p ps [d Hd] _ (r & Hr & IH)].
  { eexists. split; [reflexivity|]. split; [done|]. by intros ?%elem_of_nil. }
  simpl. unfold bind, load. rewrite Hd.
  destruct (decide (Dependency.Name d = name)) as [Hn|Hn].
  - eexists. split; [reflexivity|]. split; [apply elem_of_cons; by left|].
    by exists d.
  - exists r. split; [done|].
    destruct r as [[q|] [e|]]; try done.
    + destruct IH as [Hq IH]. split; [apply elem_of_cons; by right|done].
    + destruct IH as [-> IH]. split; [done|].
      rewrite fmap_cons. intros [?|?]%elem_of_cons; done.
Qed.

(** *** What a cycle leaves alone *)

(** A cycle never moves, adds or removes a record, and writes nothing but
    the [Healthy] field. *)
Lemma updateStatus_range_frame s ps σ s' σ' :
  updateStatus_range s ps σ = Some (s', σ') →
  length (heap σ') = length (heap σ) ∧
  ∀ q d, heap σ !! q = Some d →
    ∃ b, heap σ' !! q = Some (Dependency.set_Healthy b d).
Proof.
  revert σ. induction ps as [|p ps IH]; intros σ Hrun; simpl in Hrun.
  - unfold ret in Hrun. simplify_eq. split; [done|].
    intros q d Hq. exists (Dependency.Healthy d). by rewrite set_Healthy_self.
  - unfold bind, load, store in Hrun.
    destruct (heap σ !! p) as [d0|] eqn:Hp; [|done].
    destruct (Dependency.check d0) as [f|] eqn:Hf; simpl in Hrun; [|done].
    rewrite Hp in Hrun.
    set (σ1 := mkState _ _ _) in Hrun.
    assert (Hσ1 : ∀ q d, heap σ !! q = Some d →
      ∃ b, heap σ1 !! q = Some (Dependency.set_Healthy b d)).
    { intros q d Hq. simpl. destruct (decide (p = q)) as [->|Hne].
      - exists (f (world σ)).1. rewrite list_lookup_insert_eq by (by eapply lookup_lt_Some).
        congruence.
      - exists (Dependency.Healthy d).
        rewrite list_lookup_insert_ne by done. by rewrite set_Healthy_self. }
    assert (Hlen : length (heap σ1) = length (heap σ))
      by (simpl; apply length_insert).
    destruct (negb _ && _).
    + unfold ret in Hrun. simplify_eq. done.
    + apply IH in Hrun as [Hlen' Hrun]. split; [congruence|].
      intros q d Hq. destruct (Hσ1 q d Hq) as [b Hb].
      destruct (Hrun _ _ Hb) as [b' Hb']. exists b'. by rewrite Hb'.
Qed.

(** [probing] reads the name, the level and the probe of a record, not its
    [Healthy] field. *)
Lemma probing_ext hp hp' w ps cs w' :
  (∀ q d, q ∈ ps → hp !! q = Some d →
     ∃ b, hp' !! q = Some (Dependency.set_Healthy b d)) →
  probing hp w ps cs w' → probing hp' w ps cs w'.
Proof.
  intros Hext Hp. induction Hp as [|w p ps d f cs w' Hd Hf _ IH]; [constructor|].
  destruct (Hext p d) as [b Hb]; [set_solver|done|].
  change (Dependency.Name d) with (Dependency.Name (Dependency.set_Healthy b d)).
  change (Dependency.Level d) with (Dependency.Level (Dependency.set_Healthy b d)).
  econstructor; [done|done|].
  apply IH. intros q d' Hq. apply Hext. set_solver.
Qed.

Lemma probing_length hp w ps cs w' :
  probing hp w ps cs w' → length cs = length ps.
Proof. induction 1; simpl; congruence. Qed.

Lemma probing_callee hp w ps cs w' :
  probing hp w ps cs w' → callee <$> cs = Dependency.Name <$> records hp ps.
Proof.
  induction 1 as [|w p ps d f cs w' Hd Hf _ IH]; [done|].
  rewrite (records_cons_Some _ _ _ _ Hd), !fmap_cons, IH. done.
Qed.

(** *** One aggregation cycle, step by step *)

(** The loop probes a prefix [probed] of the slice, in order, and stops
    either at the end of the slice with the aggregate [true], or right after
    the first hard failure with the aggregate [false].  Where the slice has
    no address twice, each probed record holds its probe's answer and every
    other record is as it was. *)
Lemma updateStatus_range_run s ps σ :
  (∀ p, p ∈ ps → ∃ d, heap σ !! p = Some d ∧ is_Some (Dependency.check d)) →
  ∃ probed rest evs σ' h,
    updateStatus_range s ps σ = Some (ServiceCheck.set_Healthy h s, σ') ∧
    ps = probed ++ rest ∧
    calls σ' = calls σ ++ evs ∧
    probing (heap σ) (world σ) probed evs (world σ') ∧
    (NoDup ps →
       Forall2 (λ p c, ∃ d, heap σ !! p = Some d ∧
                    level c = Dependency.Level d ∧
                    heap σ' !! p = Some (Dependency.set_Healthy (result c) d))
         probed evs ∧
       (∀ q, q ∉ probed → heap σ' !! q = heap σ !! q)) ∧
    ((h = true ∧ rest = [] ∧ Forall (λ c, hard_failure c = false) evs) ∨
     (h = false ∧ ∃ evs0 c, evs = evs0 ++ [c] ∧
        Forall (λ c, hard_failure c = false) evs0 ∧ hard_failure c = true)).
Proof.
  revert σ. induction ps as [|p ps IH]; intros σ Hok.
  { exists [], [], [], σ, true. simpl. rewrite app_nil_r.
    repeat split; try done; [constructor|left; done]. }
  destruct (Hok p) as (d & Hd & [f Hf]); [set_solver|].
  simpl. unfold bind, load, store. rewrite Hd, Hf. simpl. rewrite Hd.
  set (c := mkCall (Dependency.Name d) (Dependency.Level d) (f (world σ)).1).
  set (σ1 := mkState _ _ _).
  assert (Hself : heap σ1 !! p = Some (Dependency.set_Healthy (result c) d)).
  { simpl. apply list_lookup_insert_eq. by eapply lookup_lt_Some. }
  assert (Hother : ∀ q, q ≠ p → heap σ1 !! q = heap σ !! q).
  { intros q Hq. simpl. by apply list_lookup_insert_ne. }
  assert (Hback : ∀ q d1, heap σ1 !! q = Some d1 →
    ∃ b, heap σ !! q = Some (Dependency.set_Healthy b d1)).
  { intros q d1 Hq. destruct (decide (q = p)) as [->|Hne].
    - rewrite Hself in Hq. injection Hq as <-.
      exists (Dependency.Healthy d). by rewrite set_Healthy_twice, set_Healthy_self.
    - rewrite Hother in Hq by done. exists (Dependency.Healthy d1).
      by rewrite set_Healthy_self. }
  destruct (negb _ && _) eqn:Hhard.
  - exists [p], ps, [c], σ1, false. split_and!; try done.
    + econstructor; [done..|constructor].
    + intros _. split.
      * constructor; [|constructor]. by exists d.
      * intros q Hq. apply Hother. set_solver.
    + right. split; [done|]. exists [], c. by repeat split.
  - destruct (IH σ1) as (probed & rest & evs & σ' & h & Hrun & -> & Hcalls
        & Hprobing & Hheap & Hout).
    { intros q Hq. destruct (decide (q = p)) as [->|Hne].
      - eexists. split; [exact Hself|]. simpl. by eexists.
      - rewrite Hother by done. apply Hok. set_solver. }
    exists (p :: probed), rest, (c :: evs), σ', h. split_and!; try done.
    + rewrite Hcalls. simpl. by rewrite <- app_assoc.
    + econstructor; [done..|].
      eapply probing_ext; [|exact Hprobing].
      intros q d1 _ Hq. by apply Hback.
    + intros [Hp Hnd]%NoDup_cons. destruct (Hheap Hnd) as [Hfill Hframe].
      assert (Hpp : p ∉ probed) by set_solver.
      split.
      * constructor.
        -- exists d. split_and!; [done..|]. by rewrite Hframe.
        -- eapply Forall2_impl_elem; [exact Hfill|]. simpl.
           intros q c' Hin (d' & Hq & Hq'). exists d'. split; [|done].
           rewrite <- Hother; [done|]. by intros ->.
      * intros q Hq. rewrite Hframe by set_solver. apply Hother. set_solver.
    + destruct Hout as [(-> & -> & Hall)|(-> & evs0 & c0 & -> & Hall & Hc0)].
      * left. repeat split; try done. by constructor.
      * right. split; [done|]. exists (c :: evs0), c0. repeat split; try done.
        by constructor.
Qed.

Lemma wf_usable σ s : wf σ s → usable σ s.
Proof.
  intros [_ Hal _] p Hp. destruct (Hal p Hp) as (d & Hd & Hf & _). by exists d.
Qed.

(** *** The outcomes of a registration *)

Lemma wf_valid σ s :
  wf σ s → Forall (λ p, is_Some (heap σ !! p)) (ServiceCheck.Dependencies s).
Proof.
  intros Hwf. apply Forall_forall. intros p Hp.
  destruct (wf_alloc _ _ Hwf p Hp) as (d & -> & _). by eexists.
Qed.

Lemma RegisterDependency_empty s lvl check σ :
  RegisterDependency s "" lvl check σ = Some ((Some ErrNoDependency, s), σ).
Proof. reflexivity. Qed.

Lemma RegisterDependency_duplicate s name lvl check σ :
  Forall (λ p, is_Some (heap σ !! p)) (ServiceCheck.Dependencies s) →
  name ≠ "" → name ∈ names σ s →
  RegisterDependency s name lvl check σ
  = Some ((Some ErrDependencyAlreadyRegistered, s), σ).
Proof.
  intros Hval Hne Hin. unfold RegisterDependency.
  rewrite decide_False by done. unfold bind.
  rewrite registered_spec by done. by rewrite bool_decide_eq_true_2.
Qed.

Lemma RegisterDependency_fresh s name lvl f σ :
  Forall (λ p, is_Some (heap σ !! p)) (ServiceCheck.Dependencies s) →
  name ≠ "" → name ∉ names σ s →
  RegisterDependency s name lvl (Some f) σ
  = Some ((None,
           ServiceCheck.set_Dependencies
             (ServiceCheck.Dependencies s ++ [length (heap σ)]) s),
          mkState (f (world σ)).2
            (heap σ ++ [Dependency.mk name (f (world σ)).1 lvl (Some f)])
            (calls σ ++ [mkCall name lvl (f (world σ)).1])).
Proof.
  intros Hval Hne Hin. unfold RegisterDependency.
  rewrite decide_False by done. unfold bind.
  rewrite registered_spec by done. by rewrite bool_decide_eq_false_2.
Qed.

Lemma RegisterDependency_nil_probe s name lvl σ :
  Forall (λ p, is_Some (heap σ !! p)) (ServiceCheck.Dependencies s) →
  name ≠ "" → name ∉ names σ s →
  RegisterDependency s name lvl None σ = None.
Proof.
  intros Hval Hne Hin. unfold RegisterDependency.
  rewrite decide_False by done. unfold bind.
  rewrite registered_spec by done. by rewrite bool_decide_eq_false_2.
Qed.

(** A registration that returns took one of three roads. *)
Lemma RegisterDependency_inv s name lvl check σ e s' σ' :
  Forall (λ p, is_Some (heap σ !! p)) (ServiceCheck.Dependencies s) →
  RegisterDependency s name lvl check σ = Some ((e, s'), σ') →
  (name = "" ∧ e = Some ErrNoDependency ∧ s' = s ∧ σ' = σ) ∨
  (name ≠ "" ∧ name ∈ names σ s ∧
   e = Some ErrDependencyAlreadyRegistered ∧ s' = s ∧ σ' = σ) ∨
  (name ≠ "" ∧ (name ∉ names σ s) ∧ e = None ∧
   (∃ f, check = Some f ∧
      s' = ServiceCheck.set_Dependencies
             (ServiceCheck.Dependencies s ++ [length (heap σ)]) s ∧
      σ' = mkState (f (world σ)).2
             (heap σ ++ [Dependency.mk name (f (world σ)).1 lvl (Some f)])
             (calls σ ++ [mkCall name lvl (f (world σ)).1]))).
Proof.
  intros Hval Hrun. destruct (decide (name = "")) as [->|Hne].
  { rewrite RegisterDependency_empty in Hrun. left. by simplify_eq. }
  destruct (decide (name ∈ names σ s)) as [Hin|Hin].
  { rewrite RegisterDependency_duplicate in Hrun by done.
    right; left. by simplify_eq. }
  destruct check as [f|].
  - rewrite RegisterDependency_fresh in Hrun by done. right; right.
    simplify_eq. repeat split; try done. by exists f.
  - by rewrite RegisterDependency_nil_probe in Hrun.
Qed.

(** *** The registry after each operation *)

Lemma records_alloc hp ps d :
  Forall (λ p, is_Some (hp !! p)) ps →
  records (hp ++ [d]) (ps ++ [length hp]) = records hp ps ++ [d].
Proof.
  intros Hval. rewrite records_app. f_equal.
  - induction Hval as [|p ps [d' Hd'] _ IH]; [done|].
    rewrite (records_cons_Some hp p ps d') by done.
    rewrite (records_cons_Some (hp ++ [d]) p ps d'); [by rewrite IH|].
    by apply lookup_app_l_Some.
  - apply records_cons_Some. by rewrite list_lookup_middle.
Qed.

Lemma records_frame_names hp hp' ps :
  length hp' = length hp →
  (∀ q d, hp !! q = Some d → ∃ b, hp' !! q = Some (Dependency.set_Healthy b d)) →
  Dependency.Name <$> records hp' ps = Dependency.Name <$> records hp ps.
Proof.
  intros Hlen Hfr. induction ps as [|p ps IH]; [done|].
  destruct (hp !! p) as [d|] eqn:Hd.
  - destruct (Hfr _ _ Hd) as [b Hb].
    rewrite (records_cons_Some hp p ps d), (records_cons_Some hp' p ps _) by done.
    rewrite !fmap_cons, IH. done.
  - assert (hp' !! p = None) as Hd'.
    { apply lookup_ge_None. rewrite Hlen. by apply lookup_ge_None. }
    unfold records in *. simpl. by rewrite Hd, Hd'.
Qed.

Lemma updateStatus_Dependencies s σ s' σ' :
  updateStatus s σ = Some (s', σ') →
  ServiceCheck.Dependencies s' = ServiceCheck.Dependencies s ∧
  ServiceCheck.Name s' = ServiceCheck.Name s ∧
  ServiceCheck.duration s' = ServiceCheck.duration s.
Proof.
  unfold updateStatus. generalize (ServiceCheck.Dependencies s) at 1.
  intros ps. revert σ. induction ps as [|p ps IH]; intros σ Hrun; simpl in Hrun.
  - unfold ret in Hrun. by simplify_eq.
  - unfold bind, load, store, invoke, panic in Hrun.
    repeat (case_match; simplify_eq; try done).
    + unfold ret in Hrun. by simplify_eq.
    + by eapply IH.
Qed.

Lemma updateStatus_names s σ s' σ' :
  updateStatus s σ = Some (s', σ') → names σ' s' = names σ s.
Proof.
  intros Hrun. unfold names, registry.
  destruct (updateStatus_Dependencies _ _ _ _ Hrun) as (-> & _).
  apply updateStatus_range_frame in Hrun as [Hlen Hfr].
  by apply records_frame_names.
Qed.

(** *** The invariant *)

Lemma wf_init σ name dur s :
  InitialiseServiceCheck name dur = (Some s, None) → wf σ s.
Proof.
  unfold InitialiseServiceCheck. case_decide; intros; simplify_eq.
  split; simpl; [constructor|set_solver|constructor].
Qed.

Lemma wf_world σ s w : wf σ s → wf (mkState w (heap σ) (calls σ)) s.
Proof. by intros [? ? ?]. Qed.

Lemma wf_register σ s name lvl check e s' σ' :
  wf σ s →
  RegisterDependency s name lvl check σ = Some ((e, s'), σ') →
  wf σ' s'.
Proof.
  intros Hwf Hrun. pose proof (wf_valid _ _ Hwf) as Hval.
  destruct (RegisterDependency_inv _ _ _ _ _ _ _ _ Hval Hrun)
    as [(_ & _ & -> & ->)|[(_ & _ & _ & -> & ->)|
        (Hne & Hin & _ & f & -> & -> & ->)]]; [done..|].
  destruct Hwf as [Hnd Hal Hnm]. split; simpl.
  - apply NoDup_app. split_and!; [done| |apply NoDup_singleton].
    intros p Hp ->%list_elem_of_singleton.
    destruct (Hal _ Hp) as (d & Hd%lookup_lt_Some & _). lia.
  - intros p [Hp| ->%list_elem_of_singleton]%elem_of_app.
    + destruct (Hal _ Hp) as (d & Hd & Hd'). exists d. split; [|done].
      by apply lookup_app_l_Some.
    + eexists. rewrite list_lookup_middle by done. split; [done|].
      simpl. split; [by eexists|done].
  - unfold names, registry in *. simpl. rewrite records_alloc by done.
    rewrite fmap_app. apply NoDup_app. split_and!; [done| |apply NoDup_singleton].
    simpl. intros x Hx ->%list_elem_of_singleton. done.
Qed.

Lemma wf_update σ s s' σ' :
  wf σ s → updateStatus s σ = Some (s', σ') → wf σ' s'.
Proof.
  intros [Hnd Hal Hnm] Hrun.
  pose proof (updateStatus_names _ _ _ _ Hrun) as Hnames.
  destruct (updateStatus_Dependencies _ _ _ _ Hrun) as (Hdeps & _).
  apply updateStatus_range_frame in Hrun as [Hlen Hfr].
  split; rewrite ?Hdeps, ?Hnames; [done| |done].
  intros p Hp. destruct (Hal _ Hp) as (d & Hd & Hd').
  destruct (Hfr _ _ Hd) as [b Hb]. by exists (Dependency.set_Healthy b d).
Qed.

Lemma wfb_wf σ s : wfb σ s = true → wf σ s.
Proof.
  unfold wfb. rewrite !andb_true_iff, !bool_decide_eq_true, forallb_forall.
  intros [[Hnd Hal] Hnm]. split; [done| |done].
  intros p Hp%list_elem_of_In. specialize (Hal p Hp).
  destruct (heap σ !! p) as [d|]; [|done].
  apply andb_true_iff in Hal as [H1%bool_decide_eq_true H2%bool_decide_eq_true].
  by exists d.
Qed.

Lemma wf_step σ s σ' s' : wf σ s → step (σ, s) (σ', s') → wf σ' s'.
Proof.
  intros Hwf Hstep. inversion Hstep; subst;
    eauto using wf_register, wf_update, wf_world.
Qed.

Lemma wf_steps (c c' : State World * ServiceCheck.t) :
  rtc step c c' → wf c.1 c.2 → wf c'.1 c'.2.
Proof.
  induction 1 as [|[σ s] [σ' s'] c'' Hstep _ IH]; [done|].
  intros Hwf. apply IH. by eapply wf_step.
Qed.

(** Every state the package's functions build satisfies the invariant. *)
Lemma reachable_wf σ s : reachable σ s → wf σ s.
Proof.
  intros (σ0 & name & dur & s0 & Hinit & Hsteps).
  apply (wf_steps _ _ Hsteps). simpl. by eapply wf_init.
Qed.

(** Operations only ever extend the registry at its end. *)
Lemma step_prefix σ s σ' s' :
  wf σ s → step (σ, s) (σ', s') →
  ServiceCheck.Dependencies s `prefix_of` ServiceCheck.Dependencies s' ∧
  names σ s `prefix_of` names σ' s'.
Proof.
  intros Hwf Hstep. inversion Hstep as [? ? name lvl check e ? ? _ Hrun| |]; subst.
  - pose proof (wf_valid _ _ Hwf) as Hval.
    destruct (RegisterDependency_inv _ _ _ _ _ _ _ _ Hval Hrun)
      as [(_ & _ & -> & ->)|[(_ & _ & _ & -> & ->)|
          (Hne & Hin & _ & f & -> & -> & ->)]]; [done..|].
    split; simpl; [by eexists|].
    unfold names, registry. simpl. rewrite records_alloc by done.
    rewrite fmap_app. by eexists.
  - match goal with H : updateStatus _ _ = _ |- _ =>
      rewrite (updateStatus_names _ _ _ _ H);
      destruct (updateStatus_Dependencies _ _ _ _ H) as (-> & _) end.
    done.
  - done.
Qed.

Lemma steps_prefix (c c' : State World * ServiceCheck.t) :
  rtc step c c' → wf c.1 c.2 →
  ServiceCheck.Dependencies c.2 `prefix_of` ServiceCheck.Dependencies c'.2 ∧
  names c.1 c.2 `prefix_of` names c'.1 c'.2.
Proof.
  induction 1 as [|[σ s] [σ' s'] c'' Hstep _ IH]; [done|].
  intros Hwf. simpl in *.
  destruct (step_prefix _ _ _ _ Hwf Hstep) as [Hd Hn].
  destruct IH as [Hd' Hn']; [by eapply wf_step|].
  split; etrans; done.
Qed.

End MachineFacts.

(** * The aggregation rule, short-circuiting and registration *)

Section Claims.
Context {World : Type}.
Implicit Types (σ : State World) (s : ServiceCheck.t) (d : Dependency.t World).
Implicit Types (ps : list ptr) (name : string) (hp : list (Dependency.t World)).

Lemma elem_of_records hp ps d :
  d ∈ records hp ps ↔ ∃ p, p ∈ ps ∧ hp !! p = Some d.
Proof. unfold records. rewrite list_elem_of_omap. naive_solver. Qed.

Lemma probing_call_inv hp w ps cs w' c :
  probing hp w ps cs w' → c ∈ cs →
  ∃ p d f w0, p ∈ ps ∧ hp !! p = Some d ∧ Dependency.check d = Some f ∧
    c = mkCall (Dependency.Name d) (Dependency.Level d) (f w0).1.
Proof.
  induction 1 as [|w p ps d f cs w' Hd Hf _ IH]; intros Hc.
  - by apply elem_of_nil in Hc.
  - apply elem_of_cons in Hc as [->|Hc].
    + exists p, d, f, w. split_and!; try done. apply elem_of_cons; by left.
    + destruct (IH Hc) as (p' & d' & f' & w0 & Hp' & Hrest).
      exists p', d', f', w0. split; [apply elem_of_cons; by right|done].
Qed.

Lemma probing_covers hp w ps cs w' p d :
  probing hp w ps cs w' → p ∈ ps → hp !! p = Some d →
  ∃ f w0, Dependency.check d = Some f ∧
    mkCall (Dependency.Name d) (Dependency.Level d) (f w0).1 ∈ cs.
Proof.
  induction 1 as [|w p' ps d' f cs w' Hd Hf _ IH]; intros Hp Hpd.
  - by apply elem_of_nil in Hp.
  - apply elem_of_cons in Hp as [->|Hp].
    + assert (d' = d) as -> by congruence.
      exists f, w. split; [done|]. apply elem_of_cons; by left.
    + destruct (IH Hp Hpd) as (f' & w0 & Hf' & Hin).
      exists f', w0. split; [done|]. apply elem_of_cons; by right.
Qed.

Lemma hard_failure_true c :
  hard_failure c = true ↔ level c = LevelHard ∧ result c = false.
Proof.
  unfold hard_failure. rewrite andb_true_iff, negb_true_iff, bool_decide_eq_true.
  tauto.
Qed.

Lemma hard_failure_false c :
  hard_failure c = false ↔ (level c = LevelHard → result c = true).
Proof.
  unfold hard_failure. rewrite andb_false_iff, negb_false_iff, bool_decide_eq_false.
  destruct (result c), (decide (level c = LevelHard)); naive_solver.
Qed.

(** A cycle on a usable check always returns; its outcome, with the slice
    split at the point the loop stopped. *)
Lemma updateStatus_run σ s :
  usable σ s →
  ∃ probed rest evs σ' h,
    updateStatus s σ = Some (ServiceCheck.set_Healthy h s, σ') ∧
    ServiceCheck.Dependencies s = probed ++ rest ∧
    calls σ' = calls σ ++ evs ∧
    probing (heap σ) (world σ) probed evs (world σ') ∧
    (NoDup (ServiceCheck.Dependencies s) →
       Forall2 (λ p c, ∃ d, heap σ !! p = Some d ∧
                    level c = Dependency.Level d ∧
                    heap σ' !! p = Some (Dependency.set_Healthy (result c) d))
         probed evs ∧
       (∀ q, q ∉ probed → heap σ' !! q = heap σ !! q)) ∧
    ((h = true ∧ rest = [] ∧ Forall (λ c, hard_failure c = false) evs) ∨
     (h = false ∧ ∃ evs0 c, evs = evs0 ++ [c] ∧
        Forall (λ c, hard_failure c = false) evs0 ∧ hard_failure c = true)).
Proof. intros Hok. by apply updateStatus_range_run. Qed.

(** A cycle none of whose calls was a hard failure has called the probe of
    no Hard dependency that always answers [false]. *)
Lemma probing_no_hard_failure hp w ps cs w' p d f :
  probing hp w ps cs w' →
  Forall (λ c, hard_failure c = false) cs →
  p ∈ ps → hp !! p = Some d →
  Dependency.Level d = LevelHard →
  Dependency.check d = Some f →
  ¬ (∀ w, (f w).1 = false).
Proof.
  intros Hprob Hall Hp Hd Hlvl Hf Hbad.
  destruct (probing_covers _ _ _ _ _ _ _ Hprob Hp Hd) as (f' & w0 & Hf' & Hin).
  assert (f' = f) as -> by congruence.
  apply (proj1 (Forall_forall _ _) Hall) in Hin.
  pose proof (proj1 (hard_failure_false _) Hin Hlvl) as Hres.
  simpl in Hres. by rewrite Hbad in Hres.
Qed.

(** C1. After one aggregation cycle the aggregate is [true] exactly when no
    call of the cycle was a Hard-level probe answering [false].  Hence: if
    every Hard dependency probes [true] the aggregate is [true] whatever the
    others answer; if some Hard dependency probes [false] the aggregate is
    [false]; and with no dependency at all the aggregate is [true]. *)
Theorem updateStatus_aggregate σ s :
  usable σ s →
  ∃ s' σ' evs,
    updateStatus s σ = Some (s', σ') ∧
    calls σ' = calls σ ++ evs ∧
    (ServiceCheck.Healthy s' = true ↔
       ∀ c, c ∈ evs → level c = LevelHard → result c = true) ∧
    ((∀ d f, d ∈ registry σ s → Dependency.Level d = LevelHard →
        Dependency.check d = Some f → ∀ w, (f w).1 = true) →
     ServiceCheck.Healthy s' = true) ∧
    ((∃ d f, d ∈ registry σ s ∧ Dependency.Level d = LevelHard ∧
        Dependency.check d = Some f ∧ ∀ w, (f w).1 = false) →
     ServiceCheck.Healthy s' = false) ∧
    (ServiceCheck.Dependencies s = [] → ServiceCheck.Healthy s' = true).
Proof.
  intros Hok.
  destruct (updateStatus_run σ s Hok)
    as (probed & rest & evs & σ' & h & Hrun & Hsplit & Hcalls & Hprob & _ & Hout).
  exists (ServiceCheck.set_Healthy h s), σ', evs. simpl.
  assert (Hiff : h = true ↔ ∀ c, c ∈ evs → level c = LevelHard → result c = true).
  { destruct Hout as [(-> & _ & Hall)|(-> & evs0 & c0 & -> & _ & Hc0)].
    - split; [|done]. intros _ c Hc. apply hard_failure_false.
      by eapply (proj1 (Forall_forall _ _) Hall).
    - split; [done|]. intros Hall. apply hard_failure_true in Hc0 as [Hl Hr].
      rewrite Hall in Hr; [done| |done]. apply elem_of_app. right.
      by apply list_elem_of_singleton. }
  split_and!; [done|done|done| | |].
  - intros Hgood. apply Hiff. intros c Hc Hlvl.
    destruct (probing_call_inv _ _ _ _ _ _ Hprob Hc)
      as (p & d & f & w0 & Hp & Hd & Hf & ->). simpl in *.
    apply (Hgood d f); [|done..]. apply elem_of_records. exists p.
    split; [|done]. rewrite Hsplit. apply elem_of_app. by left.
  - intros (d & f & [p [Hp Hd]]%elem_of_records & Hlvl & Hf & Hbad).
    destruct h; [|done]. exfalso.
    destruct Hout as [(_ & -> & Hall)|(? & _)]; [|done].
    rewrite app_nil_r in Hsplit. rewrite Hsplit in Hp.
    by apply (probing_no_hard_failure _ _ _ _ _ _ _ _ Hprob Hall Hp Hd Hlvl Hf).
  - intros Hnil. rewrite Hnil in Hsplit. symmetry in Hsplit.
    apply app_eq_nil in Hsplit as [-> ->].
    inversion Hprob; subst. apply Hiff. intros c Hc. by apply elem_of_nil in Hc.
Qed.

(** C2. When a Hard dependency probes [false], the cycle probes the slice
    up to and including the first Hard dependency whose probe answers
    [false], and nothing after it: the later dependencies are not invoked
    (neither in the call log nor in the world) and their records, the
    [Healthy] field included, are what they were before the cycle. *)
Theorem updateStatus_short_circuit σ s d f :
  wf σ s →
  d ∈ registry σ s →
  Dependency.Level d = LevelHard →
  Dependency.check d = Some f →
  (∀ w, (f w).1 = false) →
  ∃ s' σ' before p after evs0 c dp,
    updateStatus s σ = Some (s', σ') ∧
    ServiceCheck.Healthy s' = false ∧
    ServiceCheck.Dependencies s = before ++ p :: after ∧
    calls σ' = calls σ ++ evs0 ++ [c] ∧
    probing (heap σ) (world σ) (before ++ [p]) (evs0 ++ [c]) (world σ') ∧
    length evs0 = length before ∧
    Forall (λ c, hard_failure c = false) evs0 ∧
    hard_failure c = true ∧
    heap σ !! p = Some dp ∧
    Dependency.Level dp = LevelHard ∧
    heap σ' !! p = Some (Dependency.set_Healthy false dp) ∧
    ∀ q, q ∈ after →
      heap σ' !! q = heap σ !! q ∧
      ∀ dq, heap σ !! q = Some dq →
        Dependency.Name dq ∉ callee <$> (evs0 ++ [c]).
Proof.
  intros Hwf Hd Hlvl Hf Hbad.
  destruct (updateStatus_run σ s (wf_usable _ _ Hwf))
    as (probed & rest & evs & σ' & h & Hrun & Hsplit & Hcalls & Hprob & Hheap
        & Hout).
  destruct (Hheap (wf_distinct _ _ Hwf)) as [Hfill Hframe]. clear Hheap.
  rename Hfill into Hheap.
  apply elem_of_records in Hd as (pd & Hpd & Hd).
  destruct Hout as [(_ & -> & Hall)|(-> & evs0 & c & -> & Hall & Hc)].
  { rewrite app_nil_r in Hsplit. rewrite Hsplit in Hpd.
    by destruct (probing_no_hard_failure _ _ _ _ _ _ _ _ Hprob Hall Hpd Hd Hlvl Hf). }
  apply Forall2_app_inv_r in Hheap as (before & final & Hbefore & Hlast & ->).
  apply Forall2_cons_inv_r in Hlast as (p & final' & (dp & Hdp & Hlc & Hdp') & Hnil & ->).
  apply Forall2_nil_inv_r in Hnil as ->.
  apply hard_failure_true in Hc as Hc'. destruct Hc' as [Hcl Hcr].
  rewrite Hcr in Hdp'.
  exists (ServiceCheck.set_Healthy false s), σ', before, p, rest, evs0, c, dp.
  split_and!; try done.
  - by rewrite Hsplit, <- app_assoc.
  - symmetry. by eapply Forall2_length.
  - congruence.
  - intros q Hq.
    destruct Hwf as [Hnd _ Hnm]. rewrite Hsplit in Hnd.
    apply NoDup_app in Hnd as (_ & Hdisj & _).
    split.
    + apply Hframe. intros Hq'. by apply (Hdisj q).
    + intros dq Hdq. rewrite (probing_callee _ _ _ _ _ Hprob).
      unfold names, registry in Hnm. rewrite Hsplit, records_app, fmap_app in Hnm.
      apply NoDup_app in Hnm as (_ & Hdisjn & _).
      intros Hin. apply (Hdisjn _ Hin).
      apply list_elem_of_fmap. exists dq. split; [done|].
      apply elem_of_records. by exists q.
Qed.

(** C3. A registration fails exactly when the name is empty (with
    [ErrNoDependency], the package's error for a missing name) or is
    already registered (with [ErrDependencyAlreadyRegistered]).  In both
    cases the check and the whole state are returned as they were, so no
    record is added and the probe has not run; after a duplicate the name
    still has exactly one record. *)
Theorem RegisterDependency_rejects σ s name lvl check :
  wf σ s →
  (name = "" →
     RegisterDependency s name lvl check σ
     = Some ((Some ErrNoDependency, s), σ)) ∧
  (name ≠ "" → name ∈ names σ s →
     RegisterDependency s name lvl check σ
     = Some ((Some ErrDependencyAlreadyRegistered, s), σ) ∧
     count_occ string_dec (names σ s) name = 1%nat) ∧
  (∀ e s' σ',
     RegisterDependency s name lvl check σ = Some ((e, s'), σ') →
     (e ≠ None ↔ name = "" ∨ name ∈ names σ s) ∧
     (e ≠ None → s' = s ∧ σ' = σ)) ∧
  (name ≠ "" → name ∉ names σ s → is_Some check →
     ∃ s' σ', RegisterDependency s name lvl check σ = Some ((None, s'), σ')).
Proof.
  intros Hwf. pose proof (wf_valid _ _ Hwf) as Hval. split_and!.
  - intros ->. apply RegisterDependency_empty.
  - intros Hne Hin. split; [by apply RegisterDependency_duplicate|].
    pose proof (wf_names _ _ Hwf) as Hnd.
    apply NoDup_ListNoDup in Hnd.
    apply (proj1 (NoDup_count_occ string_dec _)) with (x := name) in Hnd.
    apply list_elem_of_In, (count_occ_In string_dec) in Hin. lia.
  - intros e s' σ' Hrun.
    destruct (RegisterDependency_inv _ _ _ _ _ _ _ _ Hval Hrun)
      as [(-> & -> & -> & ->)|[(Hne & Hin & -> & -> & ->)|
          (Hne & Hin & -> & _)]]; naive_solver.
  - intros Hne Hin [f ->]. rewrite RegisterDependency_fresh by done. eauto.
Qed.

(** C4. A successful registration runs the supplied probe once, on the
    caller's world, keeps its answer as the new record's [Healthy], and
    puts the record at the end of the slice; whatever operations follow,
    the records registered so far keep their places. *)
Theorem RegisterDependency_appends σ s name lvl f :
  wf σ s → name ≠ "" → name ∉ names σ s →
  ∃ s' σ',
    RegisterDependency s name lvl (Some f) σ = Some ((None, s'), σ') ∧
    world σ' = (f (world σ)).2 ∧
    calls σ' = calls σ ++ [mkCall name lvl (f (world σ)).1] ∧
    ServiceCheck.Dependencies s'
    = ServiceCheck.Dependencies s ++ [length (heap σ)] ∧
    registry σ' s'
    = registry σ s ++ [Dependency.mk name (f (world σ)).1 lvl (Some f)] ∧
    ∀ σ'' s'', rtc step (σ', s') (σ'', s'') →
      ServiceCheck.Dependencies s' `prefix_of` ServiceCheck.Dependencies s'' ∧
      names σ' s' `prefix_of` names σ'' s''.
Proof.
  intros Hwf Hne Hin. pose proof (wf_valid _ _ Hwf) as Hval.
  pose proof (RegisterDependency_fresh s name lvl f σ Hval Hne Hin) as Hrun.
  eexists _, _. split; [exact Hrun|]. simpl. split_and!; try done.
  - unfold registry. simpl. by apply records_alloc.
  - intros σ'' s'' Hsteps.
    apply (steps_prefix _ _ Hsteps). simpl. by eapply wf_register.
Qed.

(** C10. [Level] is an open [uint32]: a registration takes any value of
    it, and a cycle reads a level only through the test [== LevelHard].  So
    the aggregate turns [false] only on a failing probe of level exactly 1,
    and a registry none of whose levels is 1 (levels 0, 2, 3, ...) is
    healthy however its probes answer. *)
Theorem Level_open_uint32 σ s :
  wf σ s →
  (∀ name lvl f, is_uint32 lvl → name ≠ "" → name ∉ names σ s →
     ∃ s' σ' h,
       RegisterDependency s name lvl (Some f) σ = Some ((None, s'), σ') ∧
       last (registry σ' s') = Some (Dependency.mk name h lvl (Some f))) ∧
  ∃ s' σ' evs,
    updateStatus s σ = Some (s', σ') ∧
    calls σ' = calls σ ++ evs ∧
    (ServiceCheck.Healthy s' = false →
       ∃ c, c ∈ evs ∧ level c = 1 ∧ result c = false) ∧
    ((∀ d, d ∈ registry σ s → Dependency.Level d ≠ LevelHard) →
       ServiceCheck.Healthy s' = true).
Proof.
  intros Hwf. split.
  - intros name lvl f _ Hne Hin. pose proof (wf_valid _ _ Hwf) as Hval.
    eexists _, _, _. split; [by apply RegisterDependency_fresh|].
    unfold registry. simpl. rewrite records_alloc by done. apply last_snoc.
  - destruct (updateStatus_run σ s (wf_usable _ _ Hwf))
      as (probed & rest & evs & σ' & h & Hrun & Hsplit & Hcalls & Hprob & _ & Hout).
    exists (ServiceCheck.set_Healthy h s), σ', evs. simpl.
    split_and!; [done..| |].
    + intros ->. destruct Hout as [(? & _)|(_ & evs0 & c & -> & _ & Hc)]; [done|].
      apply hard_failure_true in Hc as [Hl Hr]. exists c. split; [|done].
      apply elem_of_app. right. by apply list_elem_of_singleton.
    + intros Hsoft. destruct Hout as [(-> & _)|(_ & evs0 & c & -> & _ & Hc)]; [done|].
      exfalso. apply hard_failure_true in Hc as [Hl Hr].
      assert (Hin : c ∈ evs0 ++ [c]).
      { apply elem_of_app. right. by apply list_elem_of_singleton. }
      destruct (probing_call_inv _ _ _ _ _ _ Hprob Hin)
        as (p & d & f & w0 & Hp & Hd & Hf & ->). simpl in *.
      apply (Hsoft d); [|done]. apply elem_of_records. exists p.
      split; [|done]. rewrite Hsplit. apply elem_of_app. by left.
Qed.

End Claims.

(** * The running system, checked *)

Example demo_wf : wf demo_state demo_check.
Proof. apply wfb_wf. reflexivity. Qed.

Example demo_cycle :
  updateStatus demo_check demo_state
  = Some (ServiceCheck.mk "api" false [0; 1; 2; 3]%nat 5000000000,
          mkState 3%nat
            [ Dependency.mk "db" true LevelHard (Some up);
              Dependency.mk "cache" false LevelSoft (Some down);
              Dependency.mk "queue" false LevelHard (Some down);
              Dependency.mk "mail" true LevelHard (Some up) ]
            [ mkCall "db" 1 true; mkCall "cache" 0 false; mkCall "queue" 1 false ]).
Proof. reflexivity. Qed.

Lemma updateStatus_aggregate_witness :
  usable demo_state demo_check ∧
  ∃ s' σ' evs,
    updateStatus demo_check demo_state = Some (s', σ') ∧
    calls σ' = calls demo_state ++ evs ∧
    (ServiceCheck.Healthy s' = true ↔
       ∀ c, c ∈ evs → level c = LevelHard → result c = true).
Proof.
  assert (Hok : usable demo_state demo_check).
  { apply wf_usable, wfb_wf. reflexivity. }
  split; [exact Hok|].
  destruct (updateStatus_aggregate demo_state demo_check Hok)
    as (s' & σ' & evs & Hrun & Hcalls & Hiff & _).
  by exists s', σ', evs.
Defined.

Lemma updateStatus_short_circuit_witness :
  wf demo_state demo_check ∧
  Dependency.mk "queue" true LevelHard (Some down) ∈ registry demo_state demo_check ∧
  (∀ w, (down w).1 = false) ∧
  ∃ s' σ' before p after,
    updateStatus demo_check demo_state = Some (s', σ') ∧
    ServiceCheck.Healthy s' = false ∧
    ServiceCheck.Dependencies demo_check = before ++ p :: after ∧
    ∀ q, q ∈ after → heap σ' !! q = heap demo_state !! q.
Proof.
  assert (Hwf : wf demo_state demo_check) by (apply wfb_wf; reflexivity).
  assert (Hin : Dependency.mk "queue" true LevelHard (Some down)
                ∈ registry demo_state demo_check).
  { apply elem_of_records. exists 2%nat. split; [|reflexivity].
    apply list_elem_of_In. simpl. tauto. }
  assert (Hdown : ∀ w, (down w).1 = false) by reflexivity.
  split_and!; [exact Hwf|exact Hin|exact Hdown|].
  destruct (updateStatus_short_circuit demo_state demo_check _ down
              Hwf Hin eq_refl eq_refl Hdown)
    as (s' & σ' & before & p & after & evs0 & c & dp & Hrun & Hh & Hsplit
        & _ & _ & _ & _ & _ & _ & _ & _ & Hafter).
  exists s', σ', before, p, after. split_and!; [done..|].
  intros q Hq. by destruct (Hafter q Hq).
Defined.

(** The last dependency is behind the failing one: its probe has not run
    (the clock stands at three ticks) and its record is untouched. *)
Example demo_cycle_skips_mail :
  ∃ s' σ', updateStatus demo_check demo_state = Some (s', σ') ∧
    world σ' = 3%nat ∧ ("mail" ∉ callee <$> calls σ') ∧
    heap σ' !! 3%nat = heap demo_state !! 3%nat.
Proof.
  eexists _, _. split; [reflexivity|]. simpl. split_and!; [done| |done].
  apply (bool_decide_unpack _). reflexivity.
Qed.

Lemma RegisterDependency_rejects_witness :
  wf demo_state demo_check ∧
  RegisterDependency demo_check "" LevelHard None demo_state
  = Some ((Some ErrNoDependency, demo_check), demo_state) ∧
  RegisterDependency demo_check "cache" LevelHard (Some up) demo_state
  = Some ((Some ErrDependencyAlreadyRegistered, demo_check), demo_state) ∧
  count_occ string_dec (names demo_state demo_check) "cache" = 1%nat.
Proof.
  assert (Hwf : wf demo_state demo_check) by (apply wfb_wf; reflexivity).
  split; [exact Hwf|].
  destruct (RegisterDependency_rejects demo_state demo_check "" LevelHard None Hwf)
    as (Hempty & _).
  destruct (RegisterDependency_rejects demo_state demo_check "cache" LevelHard
              (Some up) Hwf) as (_ & Hdup & _).
  split; [by apply Hempty|]. apply Hdup; [done|].
  apply (bool_decide_unpack _). reflexivity.
Defined.

Lemma RegisterDependency_appends_witness :
  wf demo_state demo_check ∧ "search" ≠ "" ∧
  ("search" ∉ names demo_state demo_check) ∧
  ∃ s' σ',
    RegisterDependency demo_check "search" LevelSoft (Some down) demo_state
    = Some ((None, s'), σ') ∧
    world σ' = 1%nat ∧
    registry σ' s'
    = registry demo_state demo_check
      ++ [Dependency.mk "search" false LevelSoft (Some down)].
Proof.
  assert (Hwf : wf demo_state demo_check) by (apply wfb_wf; reflexivity).
  assert (Hne : "search" ≠ "") by done.
  assert (Hfresh : "search" ∉ names demo_state demo_check).
  { apply (bool_decide_unpack _). reflexivity. }
  split_and!; [exact Hwf|exact Hne|exact Hfresh|].
  destruct (RegisterDependency_appends demo_state demo_check "search" LevelSoft
              down Hwf Hne Hfresh)
    as (s' & σ' & Hrun & Hworld & _ & _ & Hreg & _).
  by exists s', σ'.
Defined.

Lemma Level_open_uint32_witness :
  wf odd_state odd_check ∧
  (∃ s' σ' h,
     RegisterDependency odd_check "extra" 4294967295 (Some up) odd_state
     = Some ((None, s'), σ') ∧
     last (registry σ' s')
     = Some (Dependency.mk "extra" h 4294967295 (Some up))) ∧
  ∃ s' σ', updateStatus odd_check odd_state = Some (s', σ') ∧
    ServiceCheck.Healthy s' = true.
Proof.
  assert (Hwf : wf odd_state odd_check) by (apply wfb_wf; reflexivity).
  split; [exact Hwf|].
  destruct (Level_open_uint32 odd_state odd_check Hwf)
    as (Hreg & s' & σ' & evs & Hrun & _ & _ & Hsoft).
  split.
  - apply Hreg; [unfold is_uint32, uint32_max; lia|done|].
    apply (bool_decide_unpack _). reflexivity.
  - exists s', σ'. split; [done|]. apply Hsoft.
    intros d [p [Hp Hd]]%elem_of_records.
    apply list_elem_of_singleton in Hp as ->. simpl in Hd.
    injection Hd as <-. done.
Defined.

(** A failing probe at level 2 is recorded, and the aggregate stays [true]. *)
Example odd_cycle :
  updateStatus odd_check odd_state
  = Some (ServiceCheck.mk "api" true [0%nat] 5000000000,
          mkState 1%nat [Dependency.mk "legacy" false 2 (Some down)]
            [mkCall "legacy" 2 false]).
Proof. reflexivity. Qed.

(** C5. In health.go the struct literal of [InitialiseServiceCheck] sets
    [Name] and [duration] only, so the aggregate of a fresh check is Go's
    zero value [false], not [true]. *)
Theorem InitialiseServiceCheck_starts_unhealthy :
  InitialiseServiceCheck "test" 50000000
  = (Some (ServiceCheck.mk "test" false [] 50000000), None).
Proof. reflexivity. Qed.

(** The later revision of the file does what the claim says. *)
Lemma InitialiseServiceCheck_rev_healthy name dur :
  name ≠ "" →
  ∃ s, InitialiseServiceCheck_rev name dur = (Some s, None) ∧
       ServiceCheck.Healthy s = true.
Proof.
  intros Hne. unfold InitialiseServiceCheck_rev. rewrite decide_False by done.
  by eexists.
Qed.

(** Both revisions refuse the empty service name. *)
Lemma InitialiseServiceCheck_empty dur :
  InitialiseServiceCheck "" dur = (None, Some ErrNoServiceNameSupplied) ∧
  InitialiseServiceCheck_rev "" dur = (None, Some ErrNoServiceNameSupplied).
Proof. done. Qed.

(** The four rows of [TestRegisterDependency].  In the last one the probe is
    the nil function: the registration returns before calling it. *)
Example test_register_healthy :
  register_then_cycle "healthy service" LevelHard (Some up) = Some (None, true).
Proof. reflexivity. Qed.

Example test_register_unhealthy :
  register_then_cycle "unhealthy service" LevelHard (Some down)
  = Some (None, false).
Proof. reflexivity. Qed.

Example test_register_unhealthy_soft :
  register_then_cycle "unhealthy service" LevelSoft (Some down)
  = Some (None, true).
Proof. reflexivity. Qed.

Example test_register_no_name :
  register_then_cycle "" 0 None = Some (Some ErrNoDependency, true).
Proof. reflexivity. Qed.

(** A nil probe under a name that is free is called, and panics. *)
Example register_nil_probe :
  RegisterDependency demo_check "search" LevelSoft None demo_state = None.
Proof. reflexivity. Qed.

(** A state built with the package's functions alone: a fresh check, two
    registrations and one cycle. *)
Example reachable_after_cycle :
  reachable
    (mkState 4%nat
       [ Dependency.mk "db" true LevelHard (Some up);
         Dependency.mk "queue" false LevelSoft (Some down) ]
       [ mkCall "db" 1 true; mkCall "queue" 0 false;
         mkCall "db" 1 true; mkCall "queue" 0 false ])
    (ServiceCheck.mk "api" true [0; 1]%nat 5000000000).
Proof.
  exists (mkState 0%nat [] []), "api", 5000000000,
    (ServiceCheck.mk "api" false [] 5000000000).
  split; [reflexivity|].
  eapply rtc_l.
  { eapply (step_register _ _ "db" LevelHard (Some up)); [done|reflexivity]. }
  eapply rtc_l.
  { eapply (step_register _ _ "queue" LevelSoft (Some down)); [done|reflexivity]. }
  eapply rtc_l; [by eapply step_update|].
  apply rtc_refl.
Qed.

(** * The wire format read back *)

Module JsonFacts.
Import Json Image.

(** ** Scanning an encoded string *)

Lemma keep_keep l1 l2 r : keep l1 (keep l2 r) = keep (l1 ++ l2) r.
Proof. destruct r as [[? ?]|]; simpl; [by rewrite app_assoc|done]. Qed.

Lemma keep_Some l body rest : keep l (Some (body, rest)) = Some (l ++ body, rest).
Proof. reflexivity. Qed.

(** The scanner passes over it, whatever the byte. *)
Lemma scan_string_chunk c r :
  scan_string (chunk c ++ r) = keep (chunk c) (scan_string r).
Proof.
  destruct c as [[] [] [] [] [] [] [] []]; reflexivity.
Qed.

Lemma scan_string_high l r :
  Forall (λ c, (code c <? 128)%N = false) l →
  scan_string (l ++ r) = keep l (scan_string r).
Proof.
  induction 1 as [|c l Hc _ IH]; simpl app.
  - by destruct (scan_string r) as [[? ?]|].
  - pose proof (scan_string_chunk c (l ++ r)) as Hs.
    unfold chunk in Hs. rewrite Hc in Hs. simpl app in Hs.
    rewrite Hs, IH, keep_keep. done.
Qed.

Lemma cont_high c : cont c = true → (code c <? 128)%N = false.
Proof.
  unfold cont. rewrite andb_true_iff, N.leb_le, N.ltb_ge. tauto.
Qed.

Lemma between_high lo hi c :
  (128 ≤ lo)%N → between lo hi c = true → (code c <? 128)%N = false.
Proof.
  unfold between. rewrite andb_true_iff, !N.leb_le, N.ltb_ge. lia.
Qed.

(** The bytes of a well-formed multi-byte sequence all have the high bit. *)
Lemma rune_size_high b s n :
  (code b <? 128)%N = false →
  rune_size (b :: s) = S n →
  Forall (λ c, (code c <? 128)%N = false) (take (S n) (b :: s)).
Proof.
  intros Hb. unfold rune_size. destruct s as [|b1 t]; [done|].
  repeat case_match; try discriminate; intros [= <-]; simpl;
    repeat match goal with
    | |- Forall _ (_ :: _) => constructor
    | |- Forall _ [] => constructor
    | H : _ && _ = true |- _ => apply andb_true_iff in H as [? ?]
    end;
    try done; try (by apply cont_high);
    try (eapply between_high; [|eassumption]; repeat case_match; lia).
Qed.

Lemma string_body_cons fuel b s' :
  string_body (S fuel) (b :: s')
  = if (code b <? 128)%N then
      (if htmlSafe b then [b] else escape b) ++ string_body fuel s'
    else
      match rune_size (b :: s') with
      | O => (backslash :: lit "ufffd") ++ string_body fuel s'
      | S n =>
          match line_separator (b :: s') with
          | Some h => backslash :: lit "u202" ++ [h]
          | None => take (S n) (b :: s')
          end ++ string_body fuel (drop n s')
      end.
Proof. reflexivity. Qed.

Lemma scan_string_body fuel s rest :
  scan_string (string_body fuel s ++ quote :: rest)
  = Some (string_body fuel s, rest).
Proof.
  revert s. induction fuel as [|fuel IH]; intros s; [done|].
  destruct s as [|b s']; [done|]. rewrite string_body_cons.
  destruct (code b <? 128)%N eqn:Hb.
  - pose proof (scan_string_chunk b (string_body fuel s' ++ quote :: rest)) as Hs.
    unfold chunk in Hs. rewrite Hb in Hs.
    rewrite <- app_assoc, Hs, IH. done.
  - destruct (rune_size (b :: s')) as [|n] eqn:Hsize.
    + rewrite <- app_assoc.
      change (scan_string ((backslash :: lit "ufffd") ++ 
                string_body fuel s' ++ quote :: rest))
        with (keep (backslash :: lit "ufffd")
                (scan_string (string_body fuel s' ++ quote :: rest))).
      rewrite IH. done.
    + rewrite <- app_assoc. destruct (line_separator (b :: s')) as [h|] eqn:Hsep.
      * assert (h = "8"%char ∨ h = "9"%char) as [-> | ->].
        { unfold line_separator in Hsep. repeat case_match; naive_solver. }
        -- change (scan_string ((backslash :: lit "u202" ++ ["8"%char]) ++
                     string_body fuel (drop n s') ++ quote :: rest))
             with (keep (backslash :: lit "u202" ++ ["8"%char])
                     (scan_string (string_body fuel (drop n s') ++ quote :: rest))).
           rewrite IH. done.
        -- change (scan_string ((backslash :: lit "u202" ++ ["9"%char]) ++
                     string_body fuel (drop n s') ++ quote :: rest))
             with (keep (backslash :: lit "u202" ++ ["9"%char])
                     (scan_string (string_body fuel (drop n s') ++ quote :: rest))).
           rewrite IH. done.
      * rewrite scan_string_high by (by apply rune_size_high).
        rewrite IH. done.
Qed.

(** ** Scanning an encoded number *)

Lemma uint_bytes_digits d : forallb is_digit (uint_bytes d) = true.
Proof. induction d; simpl; [done|by rewrite IHd..]. Qed.

Lemma span_digits_uint d rest :
  span_digits (uint_bytes d ++ "}"%char :: rest) = (uint_bytes d, "}"%char :: rest).
Proof.
  induction d; simpl; [done|by rewrite IHd..].
Qed.

Lemma bytes_uint_uint_bytes d : Unmarshal.bytes_uint (uint_bytes d) = d.
Proof.
  unfold Unmarshal.bytes_uint.
  induction d; simpl; [done|by rewrite IHd..].
Qed.

(** A printed number is [0] or starts with a digit that is not [0]. *)
Lemma to_uint_normal n :
  N.to_uint n = Decimal.zero ∨
  (N.to_uint n ≠ Decimal.Nil ∧ ∀ d, N.to_uint n ≠ Decimal.D0 d).
Proof.
  pose proof (DecimalN.Unsigned.to_of (N.to_uint n)) as Hn.
  rewrite DecimalN.Unsigned.of_to in Hn. unfold Decimal.unorm in Hn.
  destruct (Decimal.nzhead (N.to_uint n)) eqn:Hz; [by left|right..];
    rewrite Hn; (split; [done|]);
    intros d' Hd'; rewrite <- Hz in Hd'; by apply DecimalFacts.nzhead_nonzero in Hd'.
Qed.

Lemma scan_number_uint n rest :
  scan_number (uint_bytes (N.to_uint n) ++ "}"%char :: rest)
  = Some (uint_bytes (N.to_uint n), "}"%char :: rest).
Proof.
  destruct (to_uint_normal n) as [->|[Hnil Hd0]]; [reflexivity|].
  destruct (N.to_uint n) as [|d|d|d|d|d|d|d|d|d|d]; [done|by destruct (Hd0 d)|..];
    unfold scan_number; simpl; rewrite span_digits_uint; simpl;
    by rewrite app_nil_r.
Qed.

Lemma uint32_bound z : (uint32 z <=? 4294967295)%N = true.
Proof.
  apply N.leb_le. unfold uint32.
  pose proof (Z.mod_pos_bound z 4294967296 eq_refl). lia.
Qed.

Lemma store_uint32_encode cur z :
  Unmarshal.store_uint32 cur (JNumber (encode_uint32 z))
  = Ok (z mod 4294967296).
Proof.
  unfold Unmarshal.store_uint32, encode_uint32.
  rewrite uint_bytes_digits, bytes_uint_uint_bytes, DecimalN.Unsigned.of_to.
  rewrite uint32_bound. simpl. unfold uint32. f_equal.
  pose proof (Z.mod_pos_bound z 4294967296 eq_refl). lia.
Qed.

(** ** The parser, one step at a time *)

Lemma parse_value_quote f r :
  parse_value (S f) (quote :: r)
  = match scan_string r with
    | Some (l, r') => Some (JString (unquote l), r')
    | None => None
    end.
Proof. reflexivity. Qed.

Lemma parse_value_brace f r :
  parse_value (S f) ("{"%char :: quote :: r) = parse_members f (quote :: r) [].
Proof. reflexivity. Qed.

Lemma parse_value_bracket f c r :
  is_space c = false → Ascii.eqb c "]" = false →
  parse_value (S f) ("["%char :: c :: r) = parse_elements f (c :: r) [].
Proof. intros Hs Hc. simpl. by rewrite Hs, Hc. Qed.

Lemma parse_value_null f r :
  parse_value (S f) (lit "null" ++ r) = Some (JNull, r).
Proof. reflexivity. Qed.

Lemma parse_value_bool f b r :
  parse_value (S f) (encode_bool b ++ r) = Some (JBool b, r).
Proof. by destruct b. Qed.

Lemma parse_value_string f s r :
  parse_value (S f) (encode_string s ++ r) = Some (JString (string_image s), r).
Proof.
  unfold encode_string. rewrite <- app_comm_cons, <- app_assoc.
  rewrite parse_value_quote. simpl app. by rewrite scan_string_body.
Qed.

Lemma parse_value_digit f c r :
  is_digit c = true →
  parse_value (S f) (c :: r)
  = match scan_number (c :: r) with
    | Some (l, r') => Some (JNumber l, r')
    | None => None
    end.
Proof.
  destruct c as [[] [] [] [] [] [] [] []]; intros Hc;
    first [discriminate Hc | reflexivity].
Qed.

Lemma parse_value_uint32 f z r :
  parse_value (S f) (encode_uint32 z ++ "}"%char :: r)
  = Some (JNumber (encode_uint32 z), "}"%char :: r).
Proof.
  unfold encode_uint32.
  pose proof (scan_number_uint (uint32 z) r) as Hscan.
  pose proof (uint_bytes_digits (N.to_uint (uint32 z))) as Hdig.
  destruct (to_uint_normal (uint32 z)) as [Hz|[Hnil _]].
  - rewrite Hz. reflexivity.
  - destruct (uint_bytes (N.to_uint (uint32 z))) as [|c l] eqn:Hb.
    { by destruct (N.to_uint (uint32 z)). }
    simpl in Hdig. apply andb_true_iff in Hdig as [Hc _].
    simpl app in *. by rewrite parse_value_digit, Hscan.
Qed.

Lemma parse_members_cons f r k r2 v r4 acc :
  scan_string r = Some (k, ":"%char :: r2) →
  parse_value f r2 = Some (v, ","%char :: quote :: r4) →
  parse_members (S f) (quote :: r) acc
  = parse_members f (quote :: r4) (acc ++ [(unquote k, v)]).
Proof. intros Hk Hv. simpl. rewrite Hk. simpl. rewrite Hv. reflexivity. Qed.

Lemma parse_members_last f r k r2 v r4 acc :
  scan_string r = Some (k, ":"%char :: r2) →
  parse_value f r2 = Some (v, "}"%char :: r4) →
  parse_members (S f) (quote :: r) acc
  = Some (JObject (acc ++ [(unquote k, v)]), r4).
Proof. intros Hk Hv. simpl. rewrite Hk. simpl. rewrite Hv. reflexivity. Qed.

Lemma parse_elements_cons f s v r acc :
  parse_value f s = Some (v, ","%char :: r) →
  parse_elements (S f) s acc = parse_elements f r (acc ++ [v]).
Proof. intros Hv. simpl. rewrite Hv. reflexivity. Qed.

Lemma parse_elements_last f s v r acc :
  parse_value f s = Some (v, "]"%char :: r) →
  parse_elements (S f) s acc = Some (JArray (acc ++ [v]), r).
Proof. intros Hv. simpl. rewrite Hv. reflexivity. Qed.

(** ** The parser on the two structs *)

Section Structs.
Context {World : Type}.
Implicit Types (d : Dependency.t World) (h : list (Dependency.t World)).
Implicit Types (s : ServiceCheck.t) (ps : list ptr).

Lemma encode_Dependency_app d r :
  encode_Dependency d ++ r
  = "{"%char :: quote :: lit "name" ++ quote :: ":"%char ::
      (encode_string (Dependency.Name d) ++ ","%char :: quote ::
         lit "healthy" ++ quote :: ":"%char ::
           (encode_bool (Dependency.Healthy d) ++ ","%char :: quote ::
              lit "level" ++ quote :: ":"%char ::
                (encode_uint32 (Dependency.Level d) ++ "}"%char :: r))).
Proof.
  unfold encode_Dependency, key. simpl. by repeat (rewrite <- app_assoc; simpl).
Qed.

Lemma parse_value_Dependency f d r :
  parse_value (5 + f) (encode_Dependency d ++ r) = Some (tree_Dependency d, r).
Proof.
  rewrite encode_Dependency_app. simpl Nat.add. rewrite parse_value_brace.
  erewrite parse_members_cons;
    [|reflexivity|apply parse_value_string].
  erewrite parse_members_cons;
    [|reflexivity|apply parse_value_bool].
  erewrite parse_members_last;
    [|reflexivity|apply parse_value_uint32].
  reflexivity.
Qed.

Lemma parse_value_pointer f h p r :
  parse_value (5 + f) (encode_pointer h p ++ r) = Some (tree_pointer h p, r).
Proof.
  unfold encode_pointer, tree_pointer. destruct (h !! p) as [d|].
  - apply parse_value_Dependency.
  - apply parse_value_null.
Qed.

Lemma parse_elements_pointers h ps f r acc :
  ps ≠ [] →
  parse_elements (length ps + 5 + f)
    (join (lit ",") (encode_pointer h <$> ps) ++ "]"%char :: r) acc
  = Some (JArray (acc ++ (tree_pointer h <$> ps)), r).
Proof.
  revert acc. induction ps as [|p ps IH]; intros acc Hne; [done|].
  destruct ps as [|q ps].
  - change (join (lit ",") (encode_pointer h <$> [p])) with (encode_pointer h p).
    change (length [p] + 5 + f)%nat with (S (5 + f)).
    erewrite parse_elements_last; [done|].
    apply parse_value_pointer.
  - change (join (lit ",") (encode_pointer h <$> p :: q :: ps))
      with (encode_pointer h p ++ lit ","
            ++ join (lit ",") (encode_pointer h <$> q :: ps)).
    rewrite <- !app_assoc.
    change (length (p :: q :: ps) + 5 + f)%nat
      with (S (length (q :: ps) + 5 + f)).
    erewrite parse_elements_cons.
    2:{ replace (length (q :: ps) + 5 + f)%nat
          with (5 + (length (q :: ps) + f))%nat by lia.
        apply parse_value_pointer. }
    rewrite IH by done. by rewrite <- app_assoc.
Qed.

Lemma encode_ServiceCheck_app h s r :
  encode_ServiceCheck h s ++ r
  = "{"%char :: quote :: lit "name" ++ quote :: ":"%char ::
      (encode_string (ServiceCheck.Name s) ++ ","%char :: quote ::
         lit "healthy" ++ quote :: ":"%char ::
           (encode_bool (ServiceCheck.Healthy s) ++ ","%char :: quote ::
              lit "dependencies" ++ quote :: ":"%char ::
                (encode_Dependencies h (ServiceCheck.Dependencies s)
                 ++ "}"%char :: r))).
Proof.
  unfold encode_ServiceCheck, key. simpl. by repeat (rewrite <- app_assoc; simpl).
Qed.

Lemma parse_value_Dependencies f h ps r :
  parse_value (length ps + 6 + f) (encode_Dependencies h ps ++ r)
  = Some (match ps with
          | [] => JNull
          | _ => JArray (tree_pointer h <$> ps)
          end, r).
Proof.
  destruct ps as [|p ps]; [apply parse_value_null|].
  change (parse_value (length (p :: ps) + 6 + f)
            ((lit "[" ++ join (lit ",") (encode_pointer h <$> p :: ps)
              ++ lit "]") ++ r)
          = Some (JArray (tree_pointer h <$> p :: ps), r)).
  assert (Hqs : p :: ps ≠ []) by done. revert Hqs.
  generalize (p :: ps). intros qs Hqs. rewrite <- !app_assoc.
  replace (length qs + 6 + f)%nat with (S (length qs + 5 + f)) by lia.
  destruct (join (lit ",") (encode_pointer h <$> qs)) as [|c l] eqn:Hj.
  { destruct qs as [|q [|q' qs]]; [done|..]; simpl in Hj.
    - unfold encode_pointer, encode_Dependency in Hj.
      by destruct (h !! q).
    - apply app_eq_nil in Hj as [Hj _].
      unfold encode_pointer, encode_Dependency in Hj. by destruct (h !! q). }
  assert (Hc : c = "{"%char ∨ c = "n"%char).
  { destruct qs as [|q [|q' qs]]; [done|..]; simpl in Hj;
      unfold encode_pointer, encode_Dependency in Hj;
      destruct (h !! q); simpl in Hj; injection Hj as <- _; auto. }
  change (lit "[") with ["["%char]. change (lit "]") with ["]"%char].
  simpl app. rewrite parse_value_bracket by (by destruct Hc as [-> | ->]).
  change (c :: l ++ "]"%char :: r) with ((c :: l) ++ "]"%char :: r).
  rewrite <- Hj. by rewrite parse_elements_pointers.
Qed.

Lemma parse_value_ServiceCheck f h s r :
  parse_value (length (ServiceCheck.Dependencies s) + 10 + f)
    (encode_ServiceCheck h s ++ r)
  = Some (tree_ServiceCheck h s, r).
Proof.
  rewrite encode_ServiceCheck_app.
  replace (length (ServiceCheck.Dependencies s) + 10 + f)%nat
    with (S (S (S (S (length (ServiceCheck.Dependencies s) + 6 + f))))) by lia.
  rewrite parse_value_brace.
  erewrite parse_members_cons;
    [|reflexivity|apply parse_value_string].
  erewrite parse_members_cons;
    [|reflexivity|apply parse_value_bool].
  erewrite parse_members_last;
    [|reflexivity|apply parse_value_Dependencies].
  reflexivity.
Qed.

(** ** Enough fuel *)

Lemma join_length (sep : bytes) (parts : list bytes) :
  Forall (λ x, (1 ≤ length x)%nat) parts →
  (length parts ≤ length (join sep parts))%nat.
Proof.
  induction 1 as [|x parts Hx Hparts IH]; [done|].
  destruct parts as [|y parts]; simpl in *; [lia|].
  rewrite !length_app. lia.
Qed.

Lemma encode_pointer_length h p : (1 ≤ length (encode_pointer h p))%nat.
Proof.
  unfold encode_pointer, encode_Dependency.
  destruct (h !! p); simpl; lia.
Qed.

Lemma encode_Dependencies_length h ps :
  (length ps ≤ length (encode_Dependencies h ps))%nat.
Proof.
  destruct ps as [|p ps]; [simpl; lia|].
  change (encode_Dependencies h (p :: ps))
    with (lit "[" ++ join (lit ",") (encode_pointer h <$> p :: ps) ++ lit "]").
  generalize (p :: ps). intros qs. rewrite !length_app.
  pose proof (join_length (lit ",") (encode_pointer h <$> qs)) as Hj.
  rewrite length_fmap in Hj.
  assert (Hall : Forall (λ x : bytes, (1 ≤ length x)%nat) (encode_pointer h <$> qs)).
  { apply Forall_fmap, Forall_forall. intros q _. apply encode_pointer_length. }
  specialize (Hj Hall). lia.
Qed.

Lemma Encode_length h s :
  (length (ServiceCheck.Dependencies s) + 10 ≤ length (Encode h s))%nat.
Proof.
  unfold Encode, encode_ServiceCheck, key.
  pose proof (encode_Dependencies_length h (ServiceCheck.Dependencies s)).
  rewrite !length_app. simpl. rewrite !length_app. simpl. lia.
Qed.

(** ** Storing the tree *)

Lemma store_tree_Dependency d :
  Unmarshal.store_Dependency Wire.Dependency.zero
    [ (lit "name", JString (string_image (Dependency.Name d)));
      (lit "healthy", JBool (Dependency.Healthy d));
      (lit "level", JNumber (encode_uint32 (Dependency.Level d))) ]
  = Ok (wire_Dependency d).
Proof.
  unfold Unmarshal.store_Dependency.
  change (find_field ["name"; "healthy"; "level"] (lit "name")) with (Some 0%nat).
  change (find_field ["name"; "healthy"; "level"] (lit "healthy")) with (Some 1%nat).
  change (find_field ["name"; "healthy"; "level"] (lit "level")) with (Some 2%nat).
  cbn [and_then Unmarshal.store_string Unmarshal.store_bool
       Wire.Dependency.Name Wire.Dependency.Healthy Wire.Dependency.Level].
  rewrite store_uint32_encode. reflexivity.
Qed.

Lemma store_tree_pointer h p :
  Unmarshal.store_pointer None (tree_pointer h p) = Ok (wire_Dependency <$> h !! p).
Proof.
  unfold tree_pointer. destruct (h !! p) as [d|]; [|done].
  unfold tree_Dependency, Unmarshal.store_pointer.
  change (default Wire.Dependency.zero None) with Wire.Dependency.zero.
  by rewrite store_tree_Dependency.
Qed.

Lemma store_tree_elements h ps :
  Unmarshal.store_elements [] (tree_pointer h <$> ps)
  = Ok ((λ p, wire_Dependency <$> h !! p) <$> ps).
Proof.
  induction ps as [|p ps IH]; [done|].
  rewrite !fmap_cons. cbn [Unmarshal.store_elements head tail mjoin].
  change (mjoin None) with (@None Wire.Dependency.t).
  rewrite store_tree_pointer. cbn [and_then]. rewrite IH. reflexivity.
Qed.

Lemma store_tree_ServiceCheck h s :
  Unmarshal.store Wire.ServiceCheck.zero (tree_ServiceCheck h s)
  = Ok (wire_ServiceCheck h s).
Proof.
  unfold tree_ServiceCheck, Unmarshal.store, Unmarshal.store_ServiceCheck.
  change (find_field ["name"; "healthy"; "dependencies"] (lit "name"))
    with (Some 0%nat).
  change (find_field ["name"; "healthy"; "dependencies"] (lit "healthy"))
    with (Some 1%nat).
  change (find_field ["name"; "healthy"; "dependencies"] (lit "dependencies"))
    with (Some 2%nat).
  cbn [and_then Unmarshal.store_string Unmarshal.store_bool
       Wire.ServiceCheck.Name Wire.ServiceCheck.Healthy
       Wire.ServiceCheck.Dependencies Wire.ServiceCheck.zero].
  unfold wire_ServiceCheck.
  destruct (ServiceCheck.Dependencies s) as [|p ps]; [reflexivity|].
  unfold Unmarshal.store_slice. rewrite store_tree_elements. reflexivity.
Qed.

(** ** The round trip *)

(** Decoding what [Encode] wrote gives back the exported fields of the
    check and of its dependencies. *)
Theorem Decode_Encode h s :
  Unmarshal.Decode (Encode h s) = Ok (wire_ServiceCheck h s).
Proof.
  unfold Unmarshal.Decode.
  pose proof (Encode_length h s) as Hlen.
  replace (length (Encode h s))
    with (length (ServiceCheck.Dependencies s) + 10
          + (length (Encode h s) - (length (ServiceCheck.Dependencies s) + 10)))%nat
    by lia.
  unfold Encode at 2. rewrite parse_value_ServiceCheck.
  apply store_tree_ServiceCheck.
Qed.

End Structs.

End JsonFacts.

(** ** The wire format on examples *)

Example Encode_demo :
  Json.Encode demo_heap demo_check
  = wire ("{'name':'api','healthy':true,'dependencies':["
          +:+ "{'name':'db','healthy':true,'level':1},"
          +:+ "{'name':'cache','healthy':true,'level':0},"
          +:+ "{'name':'queue','healthy':true,'level':1},"
          +:+ "{'name':'mail','healthy':true,'level':1}]}") ++ [newline].
Proof. reflexivity. Qed.

(** No dependency: the nil slice is [null]; [<] is escaped for HTML. *)
Example Encode_fresh :
  Json.Encode (World := unit) [] (ServiceCheck.mk "a<b" false [] 0)
  = wire "{'name':'a\u003cb','healthy':false,'dependencies':null}" ++ [newline].
Proof. reflexivity. Qed.

(** Keys match whatever their case, unknown keys are skipped, a [null]
    element is a nil pointer, and what follows the first value is not read. *)
Example Decode_liberal :
  Unmarshal.Decode
    (wire " { 'Healthy' : true, 'x': [1, 2.5e3, {}], 'dependencies': [null, {'LEVEL': 7}] } rest")
  = Json.Ok (Wire.ServiceCheck.mk "" true
               [None; Some (Wire.Dependency.mk "" false 7)]).
Proof. reflexivity. Qed.

Example Decode_wrong_type :
  Unmarshal.Decode (wire "{'healthy':1}") = Json.Err Json.type_error.
Proof. reflexivity. Qed.

Example Decode_level_overflow :
  Unmarshal.Decode (wire "{'dependencies':[{'level':4294967296}]}")
  = Json.Err Json.type_error.
Proof. reflexivity. Qed.

Example Decode_truncated :
  Unmarshal.Decode (wire "{'healthy':true") = Json.Err Json.syntax_error.
Proof. reflexivity. Qed.

Example Decode_empty_body :
  Unmarshal.Decode [] = Json.Err Json.syntax_error.
Proof. reflexivity. Qed.

(** * Reporting and remote checks *)

Section ReportingFacts.
Context {World : Type}.
Implicit Types (σ : State World) (s : ServiceCheck.t).

(** Whatever the response writer, the handler makes two calls on it: the
    status first, the encoded check second. *)
Lemma HTTPHandler_calls `{!ResponseWriter W} σ s (w : W) :
  HTTPHandler σ s w
  = (Write (Json.Encode (heap σ) s)
       (WriteHeader (if ServiceCheck.Healthy s then 200 else 503) w)).1.
Proof. unfold HTTPHandler, WriteStatus, getHealth. by destruct (ServiceCheck.Healthy s). Qed.

(** C7. The handler writes the status code, 200 for a healthy check and
    503 for an unhealthy one, and then the serialized check as the body, in
    this order and whatever the health. *)
Theorem HTTPHandler_status_then_body σ s (w : Recorder) :
  HTTPHandler σ s w
  = w ++ [ Header (if ServiceCheck.Healthy s then 200 else 503);
           Body (Json.Encode (heap σ) s) ].
Proof.
  rewrite HTTPHandler_calls. unfold Write, WriteHeader. simpl.
  by rewrite <- app_assoc.
Qed.

(** C9. What [WriteStatus] writes, decoded as [Get] decodes it, is a check
    with the same aggregate. *)
Theorem WriteStatus_Decode_Healthy σ s (w : Recorder) :
  ∃ b response,
    WriteStatus σ s w = (w ++ [Body b], None) ∧
    Unmarshal.Decode b = Json.Ok response ∧
    Wire.ServiceCheck.Healthy response = ServiceCheck.Healthy s.
Proof.
  exists (Json.Encode (heap σ) s), (Image.wire_ServiceCheck (heap σ) s).
  split_and!; [done| |done]. apply JsonFacts.Decode_Encode.
Qed.

End ReportingFacts.

Lemma pair_fst {A B} (x : A * B) a b : x = (a, b) → x.1 = a.
Proof. by intros ->. Qed.

(** Closes a goal about one path through a helper: both sides are taken
    apart and the equations between results decide. *)
Ltac remote_case :=
  simpl; repeat split; intros;
  repeat match goal with
         | H : ∃ _, _ |- _ => destruct H
         | H : _ ∧ _ |- _ => destruct H
         | H : _ ∨ _ |- _ => destruct H
         end;
  repeat (simplify_eq/=;
          match goal with
          | H1 : ?x = _, H2 : ?x = _ |- _ => rewrite H1 in H2
          | H1 : ?x = _, H2 : context [?x] |- _ => rewrite H1 in H2
          end);
  simplify_eq/=; try done; try tauto; try congruence; eauto 12 using pair_fst.

Section RemoteFacts.
Context {URL Request Net : Type}.
Variable ParseRequestURI : string → Json.result URL.
Variable URL_String : URL → string.
Variable NewRequest : string → string → Json.result Request.
Variable HTTPClient_Do : Request → Net → Json.result Response * Net.

Let check200 := Check200Helper ParseRequestURI URL_String NewRequest HTTPClient_Do.
Let get := Get NewRequest HTTPClient_Do.

(** C8. Both helpers answer [true] (for [Get]: the decoded [healthy]
    field) only on a response with status exactly 200, answer [false]
    without an error on any other status, and return an error exactly when
    the URL is refused, the request fails in transport, or, for [Get], the
    body of a 200 response cannot be decoded. *)
Theorem remote_checks rawURL (n : Net) :
  ((check200 rawURL n).1 = (true, None) ↔
     ∃ u req resp,
       ParseRequestURI rawURL = Json.Ok u ∧
       NewRequest "GET" (URL_String u) = Json.Ok req ∧
       (HTTPClient_Do req n).1 = Json.Ok resp ∧ StatusCode resp = 200) ∧
  (∀ u req resp,
     ParseRequestURI rawURL = Json.Ok u →
     NewRequest "GET" (URL_String u) = Json.Ok req →
     (HTTPClient_Do req n).1 = Json.Ok resp → StatusCode resp ≠ 200 →
     (check200 rawURL n).1 = (false, None)) ∧
  (∀ e, (check200 rawURL n).1.2 = Some e ↔
     ParseRequestURI rawURL = Json.Err e ∨
     ∃ u, ParseRequestURI rawURL = Json.Ok u ∧
       (NewRequest "GET" (URL_String u) = Json.Err e ∨
        ∃ req, NewRequest "GET" (URL_String u) = Json.Ok req ∧
          (HTTPClient_Do req n).1 = Json.Err e)) ∧
  ((get rawURL n).1 = (true, None) ↔
     ∃ req resp response,
       NewRequest "GET" rawURL = Json.Ok req ∧
       (HTTPClient_Do req n).1 = Json.Ok resp ∧ StatusCode resp = 200 ∧
       Unmarshal.Decode (ResponseBody resp) = Json.Ok response ∧
       Wire.ServiceCheck.Healthy response = true) ∧
  (∀ req resp response,
     NewRequest "GET" rawURL = Json.Ok req →
     (HTTPClient_Do req n).1 = Json.Ok resp → StatusCode resp = 200 →
     Unmarshal.Decode (ResponseBody resp) = Json.Ok response →
     (get rawURL n).1 = (Wire.ServiceCheck.Healthy response, None)) ∧
  (∀ req resp,
     NewRequest "GET" rawURL = Json.Ok req →
     (HTTPClient_Do req n).1 = Json.Ok resp → StatusCode resp ≠ 200 →
     (get rawURL n).1 = (false, None)) ∧
  (∀ e, (get rawURL n).1.2 = Some e ↔
     NewRequest "GET" rawURL = Json.Err e ∨
     ∃ req, NewRequest "GET" rawURL = Json.Ok req ∧
       ((HTTPClient_Do req n).1 = Json.Err e ∨
        ∃ resp, (HTTPClient_Do req n).1 = Json.Ok resp ∧
          StatusCode resp = 200 ∧
          Unmarshal.Decode (ResponseBody resp) = Json.Err e)).
Proof.
  unfold check200, get, Check200Helper, Get, StatusOK.
  split_and!.
  - destruct (ParseRequestURI rawURL) as [u|] eqn:Hparse; [|remote_case].
    destruct (NewRequest "GET" (URL_String u)) as [req|] eqn:Hnew; [|remote_case].
    destruct (HTTPClient_Do req n) as [[resp|] n'] eqn:Hdo; [|remote_case].
    case_decide; [remote_case|].
    split; [intros _|done]. exists u, req, resp. rewrite Hdo.
    split_and!; first [done|lia].
  - intros u req resp -> -> Hdo Hcode.
    destruct (HTTPClient_Do req n) as [? n']. simpl in Hdo. subst.
    by rewrite decide_True.
  - intros e. destruct (ParseRequestURI rawURL) as [u|] eqn:Hparse; [|remote_case].
    destruct (NewRequest "GET" (URL_String u)) as [req|] eqn:Hnew; [|remote_case].
    destruct (HTTPClient_Do req n) as [[resp|] n'] eqn:Hdo; [|remote_case].
    case_decide; remote_case.
  - destruct (NewRequest "GET" rawURL) as [req|] eqn:Hnew; [|remote_case].
    destruct (HTTPClient_Do req n) as [[resp|] n'] eqn:Hdo; [|remote_case].
    case_decide; [remote_case|].
    destruct (Unmarshal.Decode (ResponseBody resp)) as [response|] eqn:Hdec;
      remote_case.
  - intros req resp response -> Hdo Hcode Hdec.
    destruct (HTTPClient_Do req n) as [? n']. simpl in Hdo. subst.
    rewrite decide_False by (by intros ?). by rewrite Hdec.
  - intros req resp -> Hdo Hcode.
    destruct (HTTPClient_Do req n) as [? n']. simpl in Hdo. subst.
    by rewrite decide_True.
  - intros e. destruct (NewRequest "GET" rawURL) as [req|] eqn:Hnew; [|remote_case].
    destruct (HTTPClient_Do req n) as [[resp|] n'] eqn:Hdo; [|remote_case].
    case_decide; [remote_case|].
    destruct (Unmarshal.Decode (ResponseBody resp)) as [response|] eqn:Hdec;
      remote_case.
Qed.

End RemoteFacts.

(** * The running system, reported *)

(** One hard failure: after a cycle the handler answers 503 and the body
    says [false]; read back, the body gives [false]. *)
Example demo_report :
  ∃ s' σ' body,
    updateStatus demo_check demo_state = Some (s', σ') ∧
    HTTPHandler σ' s' ([] : Recorder) = [Header 503; Body body] ∧
    Json.result_map Wire.ServiceCheck.Healthy (Unmarshal.Decode body)
    = Json.Ok false.
Proof. eexists _, _, _. split_and!; reflexivity. Qed.

(** A remote service that answers with its handler's output is seen as
    healthy exactly when its aggregate is [true]. *)
Lemma Get_of_HTTPHandler {World Request Net : Type}
    (NewRequest : string → string → Json.result Request)
    (HTTPClient_Do : Request → Net → Json.result Response * Net)
    (σ : State World) (s : ServiceCheck.t) url req (n n' : Net) code body :
  NewRequest "GET" url = Json.Ok req →
  HTTPHandler σ s ([] : Recorder) = [Header code; Body body] →
  HTTPClient_Do req n = (Json.Ok (mkResponse code body), n') →
  Get NewRequest HTTPClient_Do url n = ((ServiceCheck.Healthy s, None), n').
Proof.
  intros Hnew Hhandler Hdo. rewrite HTTPHandler_calls in Hhandler.
  unfold Write, WriteHeader in Hhandler. simpl in Hhandler.
  injection Hhandler as <- <-.
  unfold Get. rewrite Hnew, Hdo. simpl. unfold StatusOK.
  destruct (ServiceCheck.Healthy s) eqn:Hh; [|done].
  rewrite decide_False by (by intros ?).
  rewrite JsonFacts.Decode_Encode. simpl. by rewrite Hh.
Qed.

(** * More properties of the package *)

Section LookupFacts.
Context {World : Type}.
Implicit Types (σ : State World) (s : ServiceCheck.t) (d : Dependency.t World).
Implicit Types (ps : list ptr) (name : string) (hp : list (Dependency.t World)).

(** Two records of the slice with one name are one record. *)
Lemma names_inj hp ps p q d d' :
  NoDup (Dependency.Name <$> records hp ps) →
  p ∈ ps → q ∈ ps → hp !! p = Some d → hp !! q = Some d' →
  Dependency.Name d = Dependency.Name d' → p = q.
Proof.
  induction ps as [|r ps IH]; intros Hnd Hp Hq Hdp Hdq Hname.
  { by apply elem_of_nil in Hp. }
  assert (Hin : ∀ x dx, x ∈ ps → hp !! x = Some dx →
                Dependency.Name dx ∈ Dependency.Name <$> records hp ps).
  { intros x dx Hx Hdx. apply list_elem_of_fmap. exists dx. split; [done|].
    apply elem_of_records. by exists x. }
  destruct (hp !! r) as [dr|] eqn:Hr.
  - rewrite (records_cons_Some _ _ _ _ Hr), fmap_cons in Hnd.
    apply NoDup_cons in Hnd as [Hfresh Hnd].
    apply elem_of_cons in Hp as [->|Hp]; apply elem_of_cons in Hq as [->|Hq];
      try done.
    + exfalso. apply Hfresh. assert (dr = d) as -> by congruence.
      rewrite Hname. by eapply Hin.
    + exfalso. apply Hfresh. assert (dr = d') as -> by congruence.
      rewrite <- Hname. by eapply Hin.
    + by eapply IH.
  - assert (records hp (r :: ps) = records hp ps) as Heq.
    { unfold records. simpl. by rewrite Hr. }
    rewrite Heq in Hnd.
    apply elem_of_cons in Hp as [->|Hp]; [congruence|].
    apply elem_of_cons in Hq as [->|Hq]; [congruence|].
    by eapply IH.
Qed.

(** A lookup only reads names: it answers alike in two stores that give the
    addresses of the slice the same names. *)
Lemma lookup_Dependency_ext ps name σ σ' :
  (∀ p, p ∈ ps →
     Dependency.Name <$> heap σ !! p = Dependency.Name <$> heap σ' !! p) →
  fst <$> lookup_Dependency ps name σ = fst <$> lookup_Dependency ps name σ'.
Proof.
  induction ps as [|p ps IH]; intros Hext; [done|].
  simpl. unfold bind, load.
  pose proof (Hext p ltac:(apply elem_of_cons; by left)) as Hp.
  destruct (heap σ !! p) as [d|], (heap σ' !! p) as [d'|]; simpl in Hp;
    try done.
  injection Hp as Hp. rewrite Hp.
  destruct (decide (Dependency.Name d' = name)); [done|].
  apply IH. intros q Hq. apply Hext. apply elem_of_cons. by right.
Qed.

Lemma lookup_Dependency_app ps qs name σ p :
  lookup_Dependency ps name σ = Some ((Some p, None), σ) →
  lookup_Dependency (ps ++ qs) name σ = Some ((Some p, None), σ).
Proof.
  induction ps as [|r ps IH]; [done|]. simpl. unfold bind, load.
  destruct (heap σ !! r) as [d|]; [|done].
  destruct (decide (Dependency.Name d = name)); [done|]. apply IH.
Qed.

Lemma lookup_Dependency_app_miss ps qs name σ :
  lookup_Dependency ps name σ = Some ((None, Some ErrNoDependency), σ) →
  lookup_Dependency (ps ++ qs) name σ = lookup_Dependency qs name σ.
Proof.
  induction ps as [|r ps IH]; [done|]. simpl. unfold bind, load.
  destruct (heap σ !! r) as [d|]; [|done].
  destruct (decide (Dependency.Name d = name)); [done|]. apply IH.
Qed.

(** A lookup never changes the state. *)
Lemma lookup_Dependency_state ps name σ r σ' :
  lookup_Dependency ps name σ = Some (r, σ') → σ' = σ.
Proof.
  revert σ'. induction ps as [|p ps IH]; intros σ'; simpl.
  - unfold ret. by intros [= _ <-].
  - unfold bind, load. destruct (heap σ !! p) as [d|]; [|done].
    destruct (decide (Dependency.Name d = name)); [|apply IH].
    unfold ret. by intros [= _ <-].
Qed.

Lemma lookup_Dependency_fst ps name σ r :
  fst <$> lookup_Dependency ps name σ = Some r →
  lookup_Dependency ps name σ = Some (r, σ).
Proof.
  destruct (lookup_Dependency ps name σ) as [[r' σ']|] eqn:Hl; [|done].
  intros [= <-]. by rewrite (lookup_Dependency_state _ _ _ _ _ Hl).
Qed.

(** A name that is not registered is not found. *)
Lemma ServiceCheck_Dependency_miss σ s name :
  wf σ s → name ∉ names σ s →
  ServiceCheck_Dependency s name σ = Some ((None, Some ErrNoDependency), σ).
Proof.
  intros Hwf Hn. pose proof (wf_valid _ _ Hwf) as Hval.
  destruct (lookup_Dependency_spec _ name _ Hval) as ([[p|] [e|]] & Hl & Hr);
    try done.
  - destruct Hr as (Hp & d & Hd & Hname). exfalso. apply Hn.
    apply list_elem_of_fmap. exists d. split; [done|].
    apply elem_of_records. by exists p.
  - by destruct Hr as [-> _].
Qed.

(** X3. In a well-formed check the lookup finds a registered name at the
    one address that carries it, answers [ErrNoDependency] for any other
    name (the empty name among them), and leaves the state as it is. *)
Theorem ServiceCheck_Dependency_spec σ s name :
  wf σ s →
  (name ∈ names σ s →
     ∃ p d,
       ServiceCheck_Dependency s name σ = Some ((Some p, None), σ) ∧
       p ∈ ServiceCheck.Dependencies s ∧
       heap σ !! p = Some d ∧ Dependency.Name d = name ∧
       ∀ q dq, q ∈ ServiceCheck.Dependencies s → heap σ !! q = Some dq →
         Dependency.Name dq = name → q = p) ∧
  (name ∉ names σ s →
     ServiceCheck_Dependency s name σ
     = Some ((None, Some ErrNoDependency), σ)) ∧
  ServiceCheck_Dependency s "" σ = Some ((None, Some ErrNoDependency), σ).
Proof.
  intros Hwf. pose proof (wf_valid _ _ Hwf) as Hval.
  pose proof (λ n, ServiceCheck_Dependency_miss σ s n Hwf) as Hmiss.
  split_and!; [|apply Hmiss|].
  - intros Hin.
    destruct (lookup_Dependency_spec _ name _ Hval) as ([[p|] [e|]] & Hl & Hr);
      try done.
    + destruct Hr as (Hp & d & Hd & Hname). exists p, d. split_and!; try done.
      intros q dq Hq Hdq Hnq.
      eapply (names_inj (heap σ) (ServiceCheck.Dependencies s) q p dq d);
        [apply (wf_names _ _ Hwf)|done..|congruence].
    + by destruct Hr as [_ Hr].
  - apply Hmiss. intros [d [Hname [p [Hp Hd]]%elem_of_records]]%list_elem_of_fmap.
    destruct (wf_alloc _ _ Hwf p Hp) as (d' & Hd' & _ & Hne). congruence.
Qed.

(** X2. After a successful registration the lookup of the new name gives
    the address of the new record, which holds the name, the level and the
    probe as given and the probe's answer; every other name is looked up to
    what it was looked up to before. *)
Theorem RegisterDependency_then_Dependency σ s name lvl f :
  wf σ s → name ≠ "" → name ∉ names σ s →
  ∃ s' σ' p,
    RegisterDependency s name lvl (Some f) σ = Some ((None, s'), σ') ∧
    ServiceCheck_Dependency s' name σ' = Some ((Some p, None), σ') ∧
    heap σ' !! p = Some (Dependency.mk name (f (world σ)).1 lvl (Some f)) ∧
    ∀ other, other ≠ name →
      fst <$> ServiceCheck_Dependency s' other σ'
      = fst <$> ServiceCheck_Dependency s other σ.
Proof.
  intros Hwf Hne Hfresh. pose proof (wf_valid _ _ Hwf) as Hval.
  pose proof (RegisterDependency_fresh s name lvl f σ Hval Hne Hfresh) as Hrun.
  set (d := Dependency.mk name (f (world σ)).1 lvl (Some f)) in *.
  set (σ' := mkState _ _ _) in Hrun.
  set (s' := ServiceCheck.set_Dependencies _ _) in Hrun.
  exists s', σ', (length (heap σ)).
  assert (Hnew : heap σ' !! length (heap σ) = Some d).
  { simpl. by rewrite list_lookup_middle. }
  assert (Hold : ∀ n, fst <$> lookup_Dependency (ServiceCheck.Dependencies s) n σ'
                      = fst <$> lookup_Dependency (ServiceCheck.Dependencies s) n σ).
  { intros n. apply lookup_Dependency_ext. intros q Hq.
    apply (proj1 (Forall_forall _ _) Hval) in Hq as [dq Hq]. simpl.
    by rewrite (lookup_app_l_Some _ _ _ _ Hq), Hq. }
  assert (Hlast : ∀ n, lookup_Dependency [length (heap σ)] n σ'
                       = Some (if decide (name = n) then (Some (length (heap σ)), None)
                               else (None, Some ErrNoDependency), σ')).
  { intros n. simpl. unfold bind, load. rewrite Hnew. simpl.
    by destruct (decide (name = n)). }
  pose proof (ServiceCheck_Dependency_miss σ s name Hwf Hfresh) as Hmiss.
  split_and!; [done| |done|].
  - unfold ServiceCheck_Dependency. simpl.
    rewrite lookup_Dependency_app_miss.
    + rewrite Hlast. by rewrite decide_True.
    + apply lookup_Dependency_fst. rewrite Hold.
      unfold ServiceCheck_Dependency in Hmiss. by rewrite Hmiss.
  - intros other Hother. unfold ServiceCheck_Dependency. simpl.
    destruct (lookup_Dependency_spec _ other _ Hval) as ([[q|] [e|]] & Hl & Hr);
      try done.
    + rewrite Hl. simpl.
      erewrite lookup_Dependency_app; [done|].
      apply lookup_Dependency_fst. rewrite Hold. by rewrite Hl.
    + destruct Hr as [-> _]. rewrite Hl. simpl.
      rewrite lookup_Dependency_app_miss.
      * rewrite Hlast. by rewrite decide_False.
      * apply lookup_Dependency_fst. rewrite Hold. by rewrite Hl.
Qed.

(** One operation keeps every record where it is, with its name, its level
    and its probe. *)
Lemma step_heap σ s σ' s' q d :
  wf σ s → step (σ, s) (σ', s') → heap σ !! q = Some d →
  ∃ b, heap σ' !! q = Some (Dependency.set_Healthy b d).
Proof.
  intros Hwf Hstep Hq. pose proof (wf_valid _ _ Hwf) as Hval.
  inversion Hstep as [? ? name lvl check e ? ? _ Hrun|? ? ? ? Hrun|]; subst.
  - destruct (RegisterDependency_inv _ _ _ _ _ _ _ _ Hval Hrun)
      as [(_ & _ & -> & ->)|[(_ & _ & _ & -> & ->)|
          (_ & _ & _ & f & -> & -> & ->)]];
      exists (Dependency.Healthy d); rewrite set_Healthy_self; try done.
    simpl. by apply lookup_app_l_Some.
  - apply updateStatus_range_frame in Hrun as [_ Hfr]. by apply Hfr.
  - exists (Dependency.Healthy d). by rewrite set_Healthy_self.
Qed.

Lemma step_lookup σ s σ' s' name p :
  wf σ s → step (σ, s) (σ', s') →
  ServiceCheck_Dependency s name σ = Some ((Some p, None), σ) →
  ServiceCheck_Dependency s' name σ' = Some ((Some p, None), σ').
Proof.
  intros Hwf Hstep Hl. pose proof (wf_valid _ _ Hwf) as Hval.
  assert (Hsame : fst <$> lookup_Dependency (ServiceCheck.Dependencies s) name σ'
                  = Some (Some p, None)).
  { rewrite <- (lookup_Dependency_ext _ name σ σ').
    - unfold ServiceCheck_Dependency in Hl. by rewrite Hl.
    - intros q Hq. apply (proj1 (Forall_forall _ _) Hval) in Hq as [dq Hq].
      destruct (step_heap _ _ _ _ _ _ Hwf Hstep Hq) as [b Hb].
      by rewrite Hq, Hb. }
  apply lookup_Dependency_fst in Hsame.
  unfold ServiceCheck_Dependency.
  destruct (step_prefix _ _ _ _ Hwf Hstep) as [[k ->] _].
  by apply lookup_Dependency_app.
Qed.

(** X4. The address a lookup gave keeps naming that dependency: after any
    run of registrations, cycles and changes of the world, the same name is
    looked up to the same address, and the record there has the name, the
    level and the probe it had. *)
Theorem Dependency_pointer_stable σ s σ' s' name p d :
  wf σ s →
  rtc step (σ, s) (σ', s') →
  ServiceCheck_Dependency s name σ = Some ((Some p, None), σ) →
  heap σ !! p = Some d →
  ServiceCheck_Dependency s' name σ' = Some ((Some p, None), σ') ∧
  ∃ b, heap σ' !! p = Some (Dependency.set_Healthy b d).
Proof.
  intros Hwf Hsteps. remember (σ, s) as c eqn:Hc. remember (σ', s') as c' eqn:Hc'.
  revert σ s d Hwf Hc. induction Hsteps as [c|c [σ1 s1] c'' Hstep _ IH];
    intros σ s d Hwf -> Hl Hd.
  { injection Hc' as <- <-. split; [done|].
    exists (Dependency.Healthy d). by rewrite set_Healthy_self. }
  destruct (step_heap _ _ _ _ _ _ Hwf Hstep Hd) as [b1 Hd1].
  destruct (IH Hc' σ1 s1 _ (wf_step _ _ _ _ Hwf Hstep) eq_refl
              (step_lookup _ _ _ _ _ _ Hwf Hstep Hl) Hd1) as [Hl' [b Hd']].
  split; [done|]. exists b. by rewrite Hd'.
Qed.

End LookupFacts.

Section InvariantFacts.
Context {World : Type}.
Implicit Types (σ : State World) (s : ServiceCheck.t) (d : Dependency.t World).
Implicit Types (ps : list ptr) (name : string) (hp : list (Dependency.t World)).

Lemma step_Name σ s σ' s' :
  wf σ s → step (σ, s) (σ', s') → ServiceCheck.Name s' = ServiceCheck.Name s.
Proof.
  intros Hwf Hstep. pose proof (wf_valid _ _ Hwf) as Hval.
  inversion Hstep as [? ? name lvl check e ? ? _ Hrun|? ? ? ? Hrun|]; subst.
  - destruct (RegisterDependency_inv _ _ _ _ _ _ _ _ Hval Hrun)
      as [(_ & _ & -> & ->)|[(_ & _ & _ & -> & ->)|
          (_ & _ & _ & f & -> & -> & ->)]]; done.
  - by destruct (updateStatus_Dependencies _ _ _ _ Hrun) as (_ & -> & _).
  - done.
Qed.

Lemma well_typed_step σ s σ' s' :
  well_typed σ s → step (σ, s) (σ', s') → well_typed σ' s'.
Proof.
  intros (Hwf & Hname & Hlvl) Hstep. pose proof (wf_valid _ _ Hwf) as Hval.
  split_and!; [by eapply wf_step|by rewrite (step_Name _ _ _ _ Hwf Hstep)|].
  inversion Hstep as [? ? name lvl check e ? ? Hu Hrun|? ? ? ? Hrun|]; subst.
  - destruct (RegisterDependency_inv _ _ _ _ _ _ _ _ Hval Hrun)
      as [(_ & _ & -> & ->)|[(_ & _ & _ & -> & ->)|
          (_ & _ & _ & f & -> & -> & ->)]]; [done..|].
    unfold registry. simpl. rewrite records_alloc by done.
    intros d [Hd| ->%list_elem_of_singleton]%elem_of_app; [by apply Hlvl|done].
  - intros d' [p [Hp Hd']]%elem_of_records.
    destruct (updateStatus_Dependencies _ _ _ _ Hrun) as (Hdeps & _).
    rewrite Hdeps in Hp.
    apply updateStatus_range_frame in Hrun as [_ Hfr].
    pose proof Hp as Hp'.
    apply (proj1 (Forall_forall _ _) Hval) in Hp' as [d Hd].
    destruct (Hfr _ _ Hd) as [b Hb].
    assert (d' = Dependency.set_Healthy b d) as -> by congruence.
    apply (Hlvl d). apply elem_of_records. by exists p.
  - done.
Qed.

Lemma records_length hp ps :
  Forall (λ p, is_Some (hp !! p)) ps → length (records hp ps) = length ps.
Proof.
  induction 1 as [|p ps [d Hd] _ IH]; [done|].
  rewrite (records_cons_Some _ _ _ _ Hd). simpl. by rewrite IH.
Qed.

(** X1. Whatever a program does with the package's functions, starting from
    a fresh check: no two dependencies share a name, no name is empty, the
    slice has no nil entry and no address twice, every record has a probe
    and a [uint32] level, and the service name is not empty. *)
Theorem reachable_invariant σ s :
  reachable σ s →
  NoDup (names σ s) ∧ ("" ∉ names σ s) ∧
  NoDup (ServiceCheck.Dependencies s) ∧
  length (registry σ s) = length (ServiceCheck.Dependencies s) ∧
  (∀ d, d ∈ registry σ s →
     is_Some (Dependency.check d) ∧ is_uint32 (Dependency.Level d)) ∧
  ServiceCheck.Name s ≠ "".
Proof.
  intros (σ0 & name & dur & s0 & Hinit & Hsteps).
  assert (Hwt : well_typed σ s).
  { assert (Hwt0 : well_typed σ0 s0).
    { split; [by eapply wf_init|].
      unfold InitialiseServiceCheck in Hinit. case_decide; [done|].
      injection Hinit as <-. split; [done|].
      intros d Hd. by apply elem_of_nil in Hd. }
    clear Hinit. remember (σ0, s0) as c eqn:Hc. remember (σ, s) as c' eqn:Hc'.
    revert σ0 s0 Hc Hwt0.
    induction Hsteps as [c|c [σ1 s1] c'' Hstep _ IH]; intros σ0 s0 -> Hwt0.
    - by injection Hc' as <- <-.
    - eapply IH; [done..|]. by eapply well_typed_step. }
  destruct Hwt as (Hwf & Hname & Hlvl).
  split_and!; try done.
  - apply (wf_names _ _ Hwf).
  - intros [d [Hn [p [Hp Hd]]%elem_of_records]]%list_elem_of_fmap.
    destruct (wf_alloc _ _ Hwf p Hp) as (d' & Hd' & _ & Hne). congruence.
  - apply (wf_distinct _ _ Hwf).
  - apply records_length, wf_valid, Hwf.
  - intros d Hd. split; [|by apply Hlvl].
    apply elem_of_records in Hd as [p [Hp Hd]].
    destruct (wf_alloc _ _ Hwf p Hp) as (d' & Hd' & Hf & _). congruence.
Qed.

Lemma updateStatus_range_outside s ps σ s' σ' q :
  updateStatus_range s ps σ = Some (s', σ') → q ∉ ps →
  heap σ' !! q = heap σ !! q.
Proof.
  revert σ. induction ps as [|p ps IH]; intros σ Hrun Hq; simpl in Hrun.
  { unfold ret in Hrun. by simplify_eq. }
  unfold bind, load, store in Hrun.
  destruct (heap σ !! p) as [d0|] eqn:Hp; [|done].
  destruct (Dependency.check d0) as [f|] eqn:Hf; simpl in Hrun; [|done].
  rewrite Hp in Hrun.
  assert (Hne : p ≠ q) by (intros ->; apply Hq, elem_of_cons; by left).
  destruct (negb _ && _).
  - unfold ret in Hrun. simplify_eq. simpl. by apply list_lookup_insert_ne.
  - rewrite (IH _ Hrun).
    + simpl. by apply list_lookup_insert_ne.
    + intros Hq'. apply Hq, elem_of_cons. by right.
Qed.

Lemma updateStatus_range_calls s ps σ s' σ' :
  updateStatus_range s ps σ = Some (s', σ') → calls σ `prefix_of` calls σ'.
Proof.
  revert σ. induction ps as [|p ps IH]; intros σ Hrun; simpl in Hrun.
  { unfold ret in Hrun. by simplify_eq. }
  unfold bind, load, store in Hrun.
  destruct (heap σ !! p) as [d0|] eqn:Hp; [|done].
  destruct (Dependency.check d0) as [f|] eqn:Hf; simpl in Hrun; [|done].
  rewrite Hp in Hrun.
  destruct (negb _ && _).
  - unfold ret in Hrun. simplify_eq. simpl. by eexists.
  - etrans; [|apply (IH _ Hrun)]. simpl. by eexists.
Qed.

(** X5. A cycle writes [Healthy] fields and nothing else: the check keeps
    its name, its period and its slice; the store keeps its size; every
    record keeps its name, level and probe; a record the slice does not
    point to is not touched at all; and the call log only grows. *)
Theorem updateStatus_frame σ s s' σ' :
  updateStatus s σ = Some (s', σ') →
  ServiceCheck.Name s' = ServiceCheck.Name s ∧
  ServiceCheck.duration s' = ServiceCheck.duration s ∧
  ServiceCheck.Dependencies s' = ServiceCheck.Dependencies s ∧
  length (heap σ') = length (heap σ) ∧
  (∀ q d, heap σ !! q = Some d →
     ∃ b, heap σ' !! q = Some (Dependency.set_Healthy b d)) ∧
  (∀ q, q ∉ ServiceCheck.Dependencies s → heap σ' !! q = heap σ !! q) ∧
  names σ' s' = names σ s ∧
  calls σ `prefix_of` calls σ'.
Proof.
  intros Hrun.
  destruct (updateStatus_Dependencies _ _ _ _ Hrun) as (Hdeps & Hname & Hdur).
  pose proof (updateStatus_names _ _ _ _ Hrun) as Hnames.
  pose proof (updateStatus_range_frame _ _ _ _ _ Hrun) as [Hlen Hfr].
  split_and!; try done.
  - intros q Hq. by eapply updateStatus_range_outside.
  - by eapply updateStatus_range_calls.
Qed.

End InvariantFacts.

Section CycleFacts.
Context {World : Type}.
Implicit Types (σ : State World) (s : ServiceCheck.t) (d : Dependency.t World).
Implicit Types (ps : list ptr) (name : string) (hp : list (Dependency.t World)).

(** A cycle over a slice that holds a Hard dependency whose probe always
    answers [false] ends unhealthy. *)
Lemma updateStatus_hard_failing σ s p d f s' σ' :
  usable σ s →
  p ∈ ServiceCheck.Dependencies s → heap σ !! p = Some d →
  Dependency.Level d = LevelHard → Dependency.check d = Some f →
  (∀ w, (f w).1 = false) →
  updateStatus s σ = Some (s', σ') →
  ServiceCheck.Healthy s' = false.
Proof.
  intros Hok Hp Hd Hlvl Hf Hbad Hrun.
  destruct (updateStatus_run σ s Hok)
    as (probed & rest & evs & σ1 & h & Hrun1 & Hsplit & _ & Hprob & _ & Hout).
  rewrite Hrun in Hrun1. injection Hrun1 as -> ->. simpl.
  destruct Hout as [(_ & -> & Hall)|(-> & _)]; [|done].
  rewrite app_nil_r in Hsplit. rewrite Hsplit in Hp.
  by destruct (probing_no_hard_failure _ _ _ _ _ _ _ _ Hprob Hall Hp Hd Hlvl Hf).
Qed.

(** X6. Right after a cycle the check agrees with its records: the
    aggregate is [true] exactly when every Hard record of the registry has
    [Healthy] set. *)
Theorem updateStatus_consistent σ s s' σ' :
  wf σ s →
  updateStatus s σ = Some (s', σ') →
  (ServiceCheck.Healthy s' = true ↔
     ∀ d, d ∈ registry σ' s' → Dependency.Level d = LevelHard →
       Dependency.Healthy d = true).
Proof.
  intros Hwf Hrun.
  destruct (updateStatus_run σ s (wf_usable _ _ Hwf))
    as (probed & rest & evs & σ1 & h & Hrun1 & Hsplit & _ & _ & Hheap & Hout).
  rewrite Hrun in Hrun1. injection Hrun1 as -> ->.
  destruct (Hheap (wf_distinct _ _ Hwf)) as [Hfill _]. clear Hheap.
  unfold registry. simpl.
  destruct Hout as [(-> & -> & Hall)|(-> & evs0 & c & -> & _ & Hc)].
  - split; [intros _|done]. rewrite app_nil_r in Hsplit.
    intros d' [p [Hp Hd']]%elem_of_records Hlvl. rewrite Hsplit in Hp.
    apply list_elem_of_lookup in Hp as [i Hi].
    destruct (Forall2_lookup_l _ _ _ _ _ Hfill Hi) as (c & Hc & d & Hd & Hlc & Hdc).
    assert (d' = Dependency.set_Healthy (result c) d) as -> by congruence.
    simpl in *. apply (proj1 (hard_failure_false c)); [|congruence].
    apply (proj1 (Forall_forall _ _) Hall). by eapply list_elem_of_lookup_2.
  - split; [done|]. intros Hall. exfalso.
    apply Forall2_app_inv_r in Hfill as (before & final & _ & Hlast & ->).
    apply Forall2_cons_inv_r in Hlast
      as (p & final' & (dp & Hdp & Hlc & Hdp') & _ & ->).
    apply hard_failure_true in Hc as [Hcl Hcr]. rewrite Hcr in Hdp'.
    assert (Hfalse : Dependency.Healthy (Dependency.set_Healthy false dp) = true).
    { apply Hall; [|simpl; congruence]. apply elem_of_records. exists p.
      split; [|done]. rewrite Hsplit. apply elem_of_app. left.
      apply elem_of_app. right. apply elem_of_cons. by left. }
    done.
Qed.

(** X7. A cycle that ends healthy has gone through the whole slice: every
    probe was called once, in slice order, and every record holds the
    answer its probe gave. *)
Theorem updateStatus_healthy_pass σ s s' σ' :
  wf σ s →
  updateStatus s σ = Some (s', σ') →
  ServiceCheck.Healthy s' = true →
  ∃ evs,
    calls σ' = calls σ ++ evs ∧
    probing (heap σ) (world σ) (ServiceCheck.Dependencies s) evs (world σ') ∧
    Forall2 (λ p c, ∃ d, heap σ !! p = Some d ∧
                 heap σ' !! p = Some (Dependency.set_Healthy (result c) d))
      (ServiceCheck.Dependencies s) evs.
Proof.
  intros Hwf Hrun Hh.
  destruct (updateStatus_run σ s (wf_usable _ _ Hwf))
    as (probed & rest & evs & σ1 & h & Hrun1 & Hsplit & Hcalls & Hprob & Hheap & Hout).
  rewrite Hrun in Hrun1. injection Hrun1 as -> ->. simpl in Hh. subst h.
  destruct (Hheap (wf_distinct _ _ Hwf)) as [Hfill _].
  destruct Hout as [(_ & -> & _)|(? & _)]; [|done].
  rewrite app_nil_r in Hsplit. rewrite Hsplit. exists evs.
  split_and!; [done..|].
  eapply Forall2_impl; [exact Hfill|]. simpl. intros p c (d & Hd & _ & Hd').
  by exists d.
Qed.

(** X8. A registration does not touch the aggregate, nor any record that was
    there: a Hard dependency registered while failing leaves the check as
    healthy as it was, and it is the next cycle that turns it unhealthy. *)
Theorem RegisterDependency_aggregate_stale σ s name lvl f :
  wf σ s → name ≠ "" → name ∉ names σ s →
  ∃ s' σ',
    RegisterDependency s name lvl (Some f) σ = Some ((None, s'), σ') ∧
    ServiceCheck.Healthy s' = ServiceCheck.Healthy s ∧
    ServiceCheck.Name s' = ServiceCheck.Name s ∧
    ServiceCheck.duration s' = ServiceCheck.duration s ∧
    (∀ q d, heap σ !! q = Some d → heap σ' !! q = Some d) ∧
    (lvl = LevelHard → (∀ w, (f w).1 = false) →
     ∃ s'' σ'', updateStatus s' σ' = Some (s'', σ'') ∧
       ServiceCheck.Healthy s'' = false).
Proof.
  intros Hwf Hne Hfresh. pose proof (wf_valid _ _ Hwf) as Hval.
  pose proof (RegisterDependency_fresh s name lvl f σ Hval Hne Hfresh) as Hrun.
  eexists _, _. split; [exact Hrun|]. simpl. split_and!; try done.
  - intros q d Hq. by apply lookup_app_l_Some.
  - intros -> Hbad.
    pose proof (wf_register _ _ _ _ _ _ _ _ Hwf Hrun) as Hwf'.
    destruct (updateStatus_run _ _ (wf_usable _ _ Hwf'))
      as (? & ? & ? & σ'' & h & Hcycle & _).
    eexists _, σ''. split; [exact Hcycle|].
    refine (updateStatus_hard_failing _ _ (length (heap σ))
              (Dependency.mk name (f (world σ)).1 LevelHard (Some f)) f _ _
              (wf_usable _ _ Hwf') _ _ eq_refl eq_refl Hbad Hcycle).
    + simpl. apply elem_of_app. right. by apply list_elem_of_singleton.
    + simpl. by rewrite list_lookup_middle.
Qed.

(** X9. [InitialiseServiceCheck] refuses the empty name and nothing else.
    The check it returns has the name and the period given and no
    dependency; a cycle on it calls no probe, changes nothing in the store
    and makes it healthy, and every lookup in it fails. *)
Theorem InitialiseServiceCheck_fresh name dur :
  InitialiseServiceCheck "" dur = (None, Some ErrNoServiceNameSupplied) ∧
  (name ≠ "" →
   ∃ s,
     InitialiseServiceCheck name dur = (Some s, None) ∧
     ServiceCheck.Name s = name ∧ ServiceCheck.duration s = dur ∧
     ServiceCheck.Dependencies s = [] ∧
     ∀ σ,
       updateStatus s σ = Some (ServiceCheck.set_Healthy true s, σ) ∧
       ∀ n, ServiceCheck_Dependency s n σ
            = Some ((None, Some ErrNoDependency), σ)).
Proof.
  split; [done|]. intros Hne. unfold InitialiseServiceCheck.
  rewrite decide_False by done. eexists. split; [done|]. simpl.
  split_and!; try done.
Qed.

End CycleFacts.

Section WaitFacts.
Context {World : Type}.
Implicit Types (σ : State World) (s : ServiceCheck.t) (d : Dependency.t World).
Implicit Types (sleep : World → World).

Lemma wait_loop_S n sleep s σ :
  wait_loop (S n) sleep s σ
  = match updateStatus s σ with
    | Some (s1, σ1) =>
        if getHealth s1 then Some ((true, s1), σ1)
        else wait_loop n sleep s1
               (mkState (sleep (world σ1)) (heap σ1) (calls σ1))
    | None => None
    end.
Proof.
  simpl. unfold bind. destruct (updateStatus s σ) as [[s1 σ1]|]; [|done].
  by destruct (getHealth s1).
Qed.

(** A cycle all of whose Hard probes answer [true] ends healthy. *)
Lemma updateStatus_all_good σ s s' σ' :
  usable σ s →
  (∀ d f, d ∈ registry σ s → Dependency.Level d = LevelHard →
     Dependency.check d = Some f → ∀ w, (f w).1 = true) →
  updateStatus s σ = Some (s', σ') →
  ServiceCheck.Healthy s' = true.
Proof.
  intros Hok Hgood Hrun.
  destruct (updateStatus_run σ s Hok)
    as (probed & rest & evs & σ1 & h & Hrun1 & Hsplit & _ & Hprob & _ & Hout).
  rewrite Hrun in Hrun1. injection Hrun1 as -> ->. simpl.
  destruct Hout as [(-> & _)|(-> & evs0 & c & -> & _ & Hc)]; [done|].
  apply hard_failure_true in Hc as [Hl Hr].
  assert (Hin : c ∈ evs0 ++ [c]).
  { apply elem_of_app. right. by apply list_elem_of_singleton. }
  destruct (probing_call_inv _ _ _ _ _ _ Hprob Hin)
    as (p & d & f & w0 & Hp & Hd & Hf & ->). simpl in *.
  rewrite (Hgood d f) in Hr; [done| |done..].
  apply elem_of_records. exists p. split; [|done].
  rewrite Hsplit. apply elem_of_app. by left.
Qed.

(** X10. The polling loop of [WaitForDependencies] starts with a cycle, not
    with a sleep: when every Hard probe answers [true], it leaves after one
    cycle, in the state that cycle produced. *)
Theorem wait_loop_healthy_at_once σ s :
  usable σ s →
  (∀ d f, d ∈ registry σ s → Dependency.Level d = LevelHard →
     Dependency.check d = Some f → ∀ w, (f w).1 = true) →
  ∃ s' σ',
    updateStatus s σ = Some (s', σ') ∧
    ServiceCheck.Healthy s' = true ∧
    ∀ n sleep, wait_loop (S n) sleep s σ = Some ((true, s'), σ').
Proof.
  intros Hok Hgood.
  destruct (updateStatus_run σ s Hok) as (? & ? & ? & σ' & h & Hrun & _).
  pose proof (updateStatus_all_good _ _ _ _ Hok Hgood Hrun) as Hh.
  eexists _, σ'. split; [exact Hrun|]. split; [done|].
  intros n sleep. rewrite wait_loop_S, Hrun. unfold getHealth. by rewrite Hh.
Qed.

(** What holds when the polling loop is looked at after [n] rounds. *)
Lemma wait_loop_inv n sleep σ s b s' σ' :
  wf σ s →
  wait_loop n sleep s σ = Some ((b, s'), σ') →
  (b = true → ServiceCheck.Healthy s' = true) ∧
  (b = false → (0 < n)%nat → ServiceCheck.Healthy s' = false) ∧
  wf σ' s' ∧
  ServiceCheck.Dependencies s' = ServiceCheck.Dependencies s ∧
  names σ' s' = names σ s.
Proof.
  revert σ s. induction n as [|n IH]; intros σ s Hwf Hrun.
  { simpl in Hrun. unfold ret in Hrun. injection Hrun as <- <- <-.
    split_and!; try done. lia. }
  rewrite wait_loop_S in Hrun.
  destruct (updateStatus s σ) as [[s1 σ1]|] eqn:Hcycle; [|done].
  pose proof (wf_update _ _ _ _ Hwf Hcycle) as Hwf1.
  destruct (updateStatus_Dependencies _ _ _ _ Hcycle) as (Hdeps & _).
  pose proof (updateStatus_names _ _ _ _ Hcycle) as Hnames.
  unfold getHealth in Hrun.
  destruct (ServiceCheck.Healthy s1) eqn:Hh.
  { injection Hrun as <- <- <-. by split_and!. }
  assert (Hzero : b = false → ServiceCheck.Healthy s' = false).
  { intros ->. destruct n as [|n].
    - simpl in Hrun. unfold ret in Hrun. by injection Hrun as <- <-.
    - apply IH in Hrun as (_ & Hf & _); [|by apply wf_world]. apply Hf; [done|lia]. }
  apply IH in Hrun as (Ht & Hf & Hwf' & Hdeps' & Hnames'); [|by apply wf_world].
  split; [exact Ht|]. split; [intros Hb _; exact (Hzero Hb)|].
  split; [exact Hwf'|]. split; [congruence|].
  rewrite Hnames'. exact Hnames.
Qed.

(** On a well-formed check the polling loop does not panic. *)
Lemma wait_loop_total n sleep σ s :
  wf σ s → is_Some (wait_loop n sleep s σ).
Proof.
  revert σ s. induction n as [|n IH]; intros σ s Hwf; [by eexists|].
  rewrite wait_loop_S.
  destruct (updateStatus_run σ s (wf_usable _ _ Hwf))
    as (? & ? & ? & σ1 & h & Hrun & _).
  rewrite Hrun. pose proof (wf_update _ _ _ _ Hwf Hrun) as Hwf1.
  destruct (getHealth _); [by eexists|]. apply IH. by apply wf_world.
Qed.

(** X11. On a well-formed check the polling loop of [WaitForDependencies]
    does not panic, leaves only on a healthy check, is on an unhealthy one
    for as long as it runs, and keeps the registry it started with: the
    same slice, the same names, the invariant. *)
Theorem wait_loop_exit n sleep σ s :
  wf σ s →
  ∃ b s' σ',
    wait_loop n sleep s σ = Some ((b, s'), σ') ∧
    (b = true → ServiceCheck.Healthy s' = true) ∧
    (b = false → (0 < n)%nat → ServiceCheck.Healthy s' = false) ∧
    wf σ' s' ∧
    ServiceCheck.Dependencies s' = ServiceCheck.Dependencies s ∧
    names σ' s' = names σ s.
Proof.
  intros Hwf. destruct (wait_loop_total n sleep σ s Hwf) as [[[b s'] σ'] Hrun].
  exists b, s', σ'. split; [done|]. by eapply wait_loop_inv.
Qed.

(** X12. With a Hard dependency whose probe never answers [true] the
    polling loop never leaves: after any number of rounds it is still
    running, and from the first cycle on the check is unhealthy. *)
Theorem wait_loop_stuck n sleep σ s p d f :
  wf σ s →
  p ∈ ServiceCheck.Dependencies s → heap σ !! p = Some d →
  Dependency.Level d = LevelHard → Dependency.check d = Some f →
  (∀ w, (f w).1 = false) →
  ∃ s' σ',
    wait_loop n sleep s σ = Some ((false, s'), σ') ∧
    ((0 < n)%nat → ServiceCheck.Healthy s' = false).
Proof.
  revert σ s d. induction n as [|n IH]; intros σ s d Hwf Hp Hd Hlvl Hf Hbad.
  { exists s, σ. split; [done|lia]. }
  rewrite wait_loop_S.
  destruct (updateStatus_run σ s (wf_usable _ _ Hwf))
    as (? & ? & ? & σ1 & h & Hrun & _).
  pose proof (updateStatus_hard_failing _ _ _ _ _ _ _
                (wf_usable _ _ Hwf) Hp Hd Hlvl Hf Hbad Hrun) as Hh.
  pose proof (wf_update _ _ _ _ Hwf Hrun) as Hwf1.
  destruct (updateStatus_Dependencies _ _ _ _ Hrun) as (Hdeps & _).
  pose proof Hrun as Hfr. apply updateStatus_range_frame in Hfr as [_ Hfr].
  destruct (Hfr _ _ Hd) as [b Hb].
  rewrite Hrun. unfold getHealth. rewrite Hh.
  destruct (IH (mkState (sleep (world σ1)) (heap σ1) (calls σ1))
              (ServiceCheck.set_Healthy h s) (Dependency.set_Healthy b d))
    as (s' & σ' & Hloop & Hlast); [by apply wf_world|by rewrite Hdeps|done..|].
  exists s', σ'. split; [done|]. intros _.
  destruct n as [|n]; [|apply Hlast; lia].
  simpl in Hloop. unfold ret in Hloop. by injection Hloop as <- <-.
Qed.

End WaitFacts.

Section StartFacts.
Context {World : Type}.
Implicit Types (σ : State World) (s : ServiceCheck.t) (d : Dependency.t World).
Implicit Types (sleep : Z → World → World).

Lemma check_loop_S n sleep s σ :
  check_loop (S n) sleep s σ
  = match updateStatus s σ with
    | Some (s1, σ1) =>
        check_loop n sleep s1
          (mkState (sleep (ServiceCheck.duration s1) (world σ1))
             (heap σ1) (calls σ1))
    | None => None
    end.
Proof.
  simpl. unfold bind. by destruct (updateStatus s σ) as [[s1 σ1]|].
Qed.

(** X13. On a well-formed check the loop of [StartCheck] does not panic,
    and what it does in any number of rounds is a run of cycles and changes
    of the world: the check it leaves is well formed, with the slice, the
    names and the period it had, and the call log has only grown. *)
Theorem check_loop_steps n sleep σ s :
  wf σ s →
  ∃ s' σ',
    check_loop n sleep s σ = Some (s', σ') ∧
    rtc step (σ, s) (σ', s') ∧
    wf σ' s' ∧
    ServiceCheck.Dependencies s' = ServiceCheck.Dependencies s ∧
    ServiceCheck.duration s' = ServiceCheck.duration s ∧
    names σ' s' = names σ s ∧
    calls σ `prefix_of` calls σ'.
Proof.
  revert σ s. induction n as [|n IH]; intros σ s Hwf.
  { exists s, σ. by split_and!. }
  rewrite check_loop_S.
  destruct (updateStatus_run σ s (wf_usable _ _ Hwf))
    as (? & ? & evs & σ1 & h & Hrun & _ & Hcalls & _).
  pose proof (wf_update _ _ _ _ Hwf Hrun) as Hwf1.
  pose proof (updateStatus_names _ _ _ _ Hrun) as Hnames.
  rewrite Hrun.
  set (σ2 := mkState _ (heap σ1) (calls σ1)).
  destruct (IH σ2 (ServiceCheck.set_Healthy h s))
    as (s' & σ' & Hloop & Hsteps & Hwf' & Hdeps & Hdur & Hnames' & Hpre);
    [by apply wf_world|].
  exists s', σ'. split_and!; try done.
  - eapply rtc_l; [by apply step_update|].
    eapply rtc_l; [|exact Hsteps]. apply (step_world σ1).
  - rewrite Hnames'. exact Hnames.
  - etrans; [|exact Hpre]. simpl. rewrite Hcalls. by apply prefix_app_r.
Qed.

End StartFacts.

(** * The wire format and the remote helpers, further *)

Section WireFacts.
Context {World : Type}.
Implicit Types (σ : State World) (s : ServiceCheck.t) (d : Dependency.t World).
Implicit Types (h : list (Dependency.t World)).

(** One byte of ASCII, as the encoder writes it, is read back as itself in
    one step of [unquote]. *)
Lemma unquote_loop_chunk fuel c r :
  (Json.code c <? 128)%N = true →
  Json.unquote_loop (S fuel) (Json.chunk c ++ r) = c :: Json.unquote_loop fuel r.
Proof.
  destruct c as [[] [] [] [] [] [] [] []]; intros Hc; try discriminate Hc;
    reflexivity.
Qed.

Lemma chunk_length c : (1 ≤ length (Json.chunk c))%nat.
Proof. destruct c as [[] [] [] [] [] [] [] []]; vm_compute; lia. Qed.

Lemma string_body_ascii fuel b l :
  (Json.code b <? 128)%N = true →
  Json.string_body (S fuel) (b :: l) = Json.chunk b ++ Json.string_body fuel l.
Proof.
  intros Hb. rewrite JsonFacts.string_body_cons. unfold Json.chunk. by rewrite Hb.
Qed.

Lemma string_body_ascii_length fuel l :
  forallb (λ c, (Json.code c <? 128)%N) l = true →
  (length l ≤ fuel)%nat →
  (length l ≤ length (Json.string_body fuel l))%nat.
Proof.
  revert fuel. induction l as [|b l IH]; intros fuel Hl Hfuel; [simpl; lia|].
  simpl in Hl. apply andb_true_iff in Hl as [Hb Hl].
  destruct fuel as [|fuel]; [simpl in Hfuel; lia|].
  rewrite string_body_ascii by done. rewrite length_app. simpl in *.
  pose proof (chunk_length b). specialize (IH fuel Hl). lia.
Qed.

Lemma unquote_loop_string_body fuel fuel' l :
  forallb (λ c, (Json.code c <? 128)%N) l = true →
  (length l ≤ fuel)%nat → (length l ≤ fuel')%nat →
  Json.unquote_loop fuel' (Json.string_body fuel l) = l.
Proof.
  revert fuel fuel'. induction l as [|b l IH]; intros fuel fuel' Hl Hf Hf'.
  { destruct fuel, fuel'; reflexivity. }
  simpl in Hl. apply andb_true_iff in Hl as [Hb Hl]. simpl in Hf, Hf'.
  destruct fuel as [|fuel]; [lia|]. destruct fuel' as [|fuel']; [lia|].
  rewrite string_body_ascii, unquote_loop_chunk by done.
  f_equal. apply IH; [done|lia..].
Qed.

(** An ASCII string is read back as it was. *)
Lemma string_image_ascii (name : string) :
  is_ascii name = true →
  string_of_list_ascii (Image.string_image name) = name.
Proof.
  intros Hname. unfold Image.string_image, Json.unquote.
  rewrite unquote_loop_string_body; [| done | done |].
  - apply string_of_list_ascii_of_string.
  - by apply string_body_ascii_length.
Qed.

Lemma wire_Dependency_view d :
  is_ascii (Dependency.Name d) = true → is_uint32 (Dependency.Level d) →
  Image.wire_Dependency d = view_Dependency d.
Proof.
  intros Hname Hlvl. unfold Image.wire_Dependency, view_Dependency.
  rewrite string_image_ascii by done. f_equal.
  unfold is_uint32, uint32_max in Hlvl. apply Z.mod_small. lia.
Qed.

(** X14. What [WriteStatus] writes is read back, field by field, as the
    check it was written from, when the names are ASCII: the service name,
    the aggregate, and for each dependency its name, its [Healthy] field and
    its level.  Quotes, HTML characters and control characters in a name are
    escaped on the way out and restored on the way in. *)
Theorem WriteStatus_round_trip σ s (w : Recorder) :
  is_ascii (ServiceCheck.Name s) = true →
  (∀ d, d ∈ registry σ s →
     is_ascii (Dependency.Name d) = true ∧ is_uint32 (Dependency.Level d)) →
  ∃ b,
    WriteStatus σ s w = (w ++ [Body b], None) ∧
    Unmarshal.Decode b = Json.Ok (view_ServiceCheck (heap σ) s).
Proof.
  intros Hname Hdeps. exists (Json.Encode (heap σ) s). split; [done|].
  rewrite JsonFacts.Decode_Encode. f_equal.
  unfold Image.wire_ServiceCheck, view_ServiceCheck.
  rewrite string_image_ascii by done. f_equal.
  apply list_fmap_ext. intros i p Hp.
  destruct (heap σ !! p) as [d|] eqn:Hd; [|done]. simpl. f_equal.
  destruct (Hdeps d) as [Hn Hl]; [|by apply wire_Dependency_view].
  apply elem_of_records. exists p. split; [|done].
  by eapply list_elem_of_lookup_2.
Qed.




End WireFacts.

Section RemoteMore.
Context {World URL Request Net : Type}.
Variable ParseRequestURI : string → Json.result URL.
Variable URL_String : URL → string.
Variable NewRequest : string → string → Json.result Request.

Section OneClient.
Variable HTTPClient_Do : Request → Net → Json.result Response * Net.

Let check200 := Check200Helper ParseRequestURI URL_String NewRequest HTTPClient_Do.
Let get := Get NewRequest HTTPClient_Do.

(** X16. Against a service that answers with its [HTTPHandler], the two
    helpers agree, and what they answer is the aggregate of the service's
    check, without an error.  (In general they differ: a 200 response whose
    body says unhealthy is [true] for [Check200Helper] and [false] for
    [Get]; the handler never sends one.) *)
Theorem helpers_against_HTTPHandler (σ : State World) s rawURL u req req'
    (n : Net) code body :
  HTTPHandler σ s ([] : Recorder) = [Header code; Body body] →
  ParseRequestURI rawURL = Json.Ok u →
  NewRequest "GET" (URL_String u) = Json.Ok req →
  NewRequest "GET" rawURL = Json.Ok req' →
  (HTTPClient_Do req n).1 = Json.Ok (mkResponse code body) →
  (HTTPClient_Do req' n).1 = Json.Ok (mkResponse code body) →
  (check200 rawURL n).1 = (ServiceCheck.Healthy s, None) ∧
  (get rawURL n).1 = (ServiceCheck.Healthy s, None).
Proof.
  intros Hhandler Hparse Hnew Hnew' Hdo Hdo'.
  rewrite HTTPHandler_calls in Hhandler.
  unfold Write, WriteHeader in Hhandler. simpl in Hhandler.
  injection Hhandler as <- <-.
  unfold check200, get, Check200Helper, Get, StatusOK.
  rewrite Hparse, Hnew, Hnew'.
  destruct (HTTPClient_Do req n) as [r1 n1], (HTTPClient_Do req' n) as [r2 n2].
  simpl in Hdo, Hdo'. subst r1 r2. simpl.
  destruct (ServiceCheck.Healthy s) eqn:Hh.
  - rewrite !decide_False by (by intros ?).
    rewrite JsonFacts.Decode_Encode. simpl. by rewrite Hh.
  - by rewrite !decide_True.
Qed.

(** X17. Neither helper answers [true] together with an error, and neither
    makes more than one request: when the URL is refused the network is left
    as it was, and otherwise it is left as the one call of [Do] left it. *)
Theorem remote_one_request rawURL (n : Net) :
  (∀ ok e, (check200 rawURL n).1 = (ok, Some e) → ok = false) ∧
  (∀ ok e, (get rawURL n).1 = (ok, Some e) → ok = false) ∧
  (∀ e, ParseRequestURI rawURL = Json.Err e →
     check200 rawURL n = ((false, Some e), n)) ∧
  (∀ u e, ParseRequestURI rawURL = Json.Ok u →
     NewRequest "GET" (URL_String u) = Json.Err e →
     check200 rawURL n = ((false, Some e), n)) ∧
  (∀ u req, ParseRequestURI rawURL = Json.Ok u →
     NewRequest "GET" (URL_String u) = Json.Ok req →
     (check200 rawURL n).2 = (HTTPClient_Do req n).2) ∧
  (∀ e, NewRequest "GET" rawURL = Json.Err e →
     get rawURL n = ((false, Some e), n)) ∧
  (∀ req, NewRequest "GET" rawURL = Json.Ok req →
     (get rawURL n).2 = (HTTPClient_Do req n).2).
Proof.
  unfold check200, get, Check200Helper, Get, StatusOK. split_and!.
  - intros ok e.
    destruct (ParseRequestURI rawURL) as [u|]; [|by intros [= <- _]].
    destruct (NewRequest "GET" (URL_String u)) as [req|]; [|by intros [= <- _]].
    destruct (HTTPClient_Do req n) as [[resp|] n']; [|by intros [= <- _]].
    by case_decide.
  - intros ok e.
    destruct (NewRequest "GET" rawURL) as [req|]; [|by intros [= <- _]].
    destruct (HTTPClient_Do req n) as [[resp|] n']; [|by intros [= <- _]].
    case_decide; [done|].
    by destruct (Unmarshal.Decode (ResponseBody resp)); intros [= <- ?].
  - by intros e ->.
  - by intros u e -> ->.
  - intros u req -> ->.
    destruct (HTTPClient_Do req n) as [[resp|] n']; [|done]. by case_decide.
  - by intros e ->.
  - intros req ->.
    destruct (HTTPClient_Do req n) as [[resp|] n']; [|done].
    case_decide; [done|]. by destruct (Unmarshal.Decode (ResponseBody resp)).
Qed.

End OneClient.

(** X18. The optional client of the later version changes nothing for a
    caller that passes none: the helpers then do what the one-client
    helpers do with the package's [HTTPClient].  A client that is passed is
    used in place of the default, and only the first one counts.  A nil
    client panics, but not before the URL has been accepted. *)
Theorem optional_client (HTTPClient : Client) do rest rawURL (n : Net) :
  Check200Helper_opt ParseRequestURI URL_String NewRequest (Some do) rawURL [] n
  = Some (Check200Helper ParseRequestURI URL_String NewRequest do rawURL n) ∧
  Get_opt NewRequest (Some do) rawURL [] n
  = Some (Get NewRequest do rawURL n) ∧
  Check200Helper_opt ParseRequestURI URL_String NewRequest HTTPClient rawURL
    (Some do :: rest) n
  = Some (Check200Helper ParseRequestURI URL_String NewRequest do rawURL n) ∧
  Get_opt NewRequest HTTPClient rawURL (Some do :: rest) n
  = Some (Get NewRequest do rawURL n) ∧
  (Check200Helper_opt ParseRequestURI URL_String NewRequest HTTPClient rawURL
     (None :: rest) n = None ↔
   ∃ u req, ParseRequestURI rawURL = Json.Ok u ∧
     NewRequest "GET" (URL_String u) = Json.Ok req) ∧
  (Get_opt NewRequest HTTPClient rawURL (None :: rest) n = None ↔
   ∃ req, NewRequest "GET" rawURL = Json.Ok req).
Proof.
  unfold Check200Helper_opt, Get_opt, Check200Helper, Get, getHTTPClient,
    client_Do.
  split_and!.
  - destruct (ParseRequestURI rawURL) as [u|]; [|done].
    destruct (NewRequest "GET" (URL_String u)) as [req|]; [|done].
    destruct (do req n) as [[resp|] n']; [|done]. by case_decide.
  - destruct (NewRequest "GET" rawURL) as [req|]; [|done].
    destruct (do req n) as [[resp|] n']; [|done].
    case_decide; [done|]. by destruct (Unmarshal.Decode (ResponseBody resp)).
  - destruct (ParseRequestURI rawURL) as [u|]; [|done].
    destruct (NewRequest "GET" (URL_String u)) as [req|]; [|done].
    destruct (do req n) as [[resp|] n']; [|done]. by case_decide.
  - destruct (NewRequest "GET" rawURL) as [req|]; [|done].
    destruct (do req n) as [[resp|] n']; [|done].
    case_decide; [done|]. by destruct (Unmarshal.Decode (ResponseBody resp)).
  - destruct (ParseRequestURI rawURL) as [u|]; [|split; [done|by intros (? & ? & ? & ?)]].
    destruct (NewRequest "GET" (URL_String u)) as [req|] eqn:Hnew.
    + split; [by eexists _, _|done].
    + split; [done|]. intros (u' & req & [= <-] & Hreq). congruence.
  - destruct (NewRequest "GET" rawURL) as [req|].
    + split; [by eexists|done].
    + split; [done|by intros [? ?]].
Qed.

End RemoteMore.

(** * The further properties, on the running system *)

Lemma reachable_invariant_witness :
  reachable live_state live_check ∧
  NoDup (names live_state live_check) ∧
  ("" ∉ names live_state live_check) ∧
  ServiceCheck.Name live_check ≠ "".
Proof.
  assert (Hr : reachable live_state live_check).
  { exists (mkState 0%nat [] []), "api", 5000000000,
      (ServiceCheck.mk "api" false [] 5000000000).
    split; [reflexivity|].
    eapply rtc_l.
    { eapply (step_register _ _ "db" LevelHard (Some up)); [done|reflexivity]. }
    eapply rtc_l.
    { eapply (step_register _ _ "queue" LevelSoft (Some down));
        [done|reflexivity]. }
    eapply rtc_l; [by eapply step_update|].
    apply rtc_refl. }
  split; [exact Hr|].
  destruct (reachable_invariant live_state live_check Hr)
    as (Hnd & Hne & _ & _ & _ & Hname).
  by split_and!.
Defined.

Lemma RegisterDependency_then_Dependency_witness :
  wf demo_state demo_check ∧ "search" ≠ "" ∧
  ("search" ∉ names demo_state demo_check) ∧
  ∃ s' σ' p,
    RegisterDependency demo_check "search" LevelSoft (Some up) demo_state
    = Some ((None, s'), σ') ∧
    ServiceCheck_Dependency s' "search" σ' = Some ((Some p, None), σ') ∧
    heap σ' !! p = Some (Dependency.mk "search" true LevelSoft (Some up)).
Proof.
  assert (Hwf : wf demo_state demo_check) by (apply wfb_wf; reflexivity).
  assert (Hne : "search" ≠ "") by done.
  assert (Hfresh : "search" ∉ names demo_state demo_check).
  { apply (bool_decide_unpack _). reflexivity. }
  split_and!; [exact Hwf|exact Hne|exact Hfresh|].
  destruct (RegisterDependency_then_Dependency demo_state demo_check "search"
              LevelSoft up Hwf Hne Hfresh)
    as (s' & σ' & p & Hreg & Hlook & Hrec & _).
  by exists s', σ', p.
Defined.

Lemma ServiceCheck_Dependency_spec_witness :
  wf demo_state demo_check ∧
  ("queue" ∈ names demo_state demo_check) ∧
  ("search" ∉ names demo_state demo_check) ∧
  (∃ p d,
     ServiceCheck_Dependency demo_check "queue" demo_state
     = Some ((Some p, None), demo_state) ∧
     heap demo_state !! p = Some d ∧ Dependency.Name d = "queue") ∧
  ServiceCheck_Dependency demo_check "search" demo_state
  = Some ((None, Some ErrNoDependency), demo_state).
Proof.
  assert (Hwf : wf demo_state demo_check) by (apply wfb_wf; reflexivity).
  assert (Hin : "queue" ∈ names demo_state demo_check).
  { apply (bool_decide_unpack _). reflexivity. }
  assert (Hout : "search" ∉ names demo_state demo_check).
  { apply (bool_decide_unpack _). reflexivity. }
  split_and!; [exact Hwf|exact Hin|exact Hout| |].
  - destruct (ServiceCheck_Dependency_spec demo_state demo_check "queue" Hwf)
      as (Hfound & _ & _).
    destruct (Hfound Hin) as (p & d & Hlook & _ & Hd & Hname & _).
    by exists p, d.
  - destruct (ServiceCheck_Dependency_spec demo_state demo_check "search" Hwf)
      as (_ & Hmiss & _).
    exact (Hmiss Hout).
Defined.

Lemma Dependency_pointer_stable_witness :
  wf demo_state demo_check ∧
  ∃ s' σ',
    rtc step (demo_state, demo_check) (σ', s') ∧
    ServiceCheck.Healthy s' = false ∧
    ServiceCheck_Dependency demo_check "queue" demo_state
    = Some ((Some 2%nat, None), demo_state) ∧
    ServiceCheck_Dependency s' "queue" σ' = Some ((Some 2%nat, None), σ') ∧
    ∃ b, heap σ' !! 2%nat
         = Some (Dependency.mk "queue" b LevelHard (Some down)).
Proof.
  assert (Hwf : wf demo_state demo_check) by (apply wfb_wf; reflexivity).
  split; [exact Hwf|].
  destruct (updateStatus demo_check demo_state) as [[s' σ']|] eqn:Hrun;
    [|discriminate Hrun].
  assert (Hsteps : rtc step (demo_state, demo_check) (σ', s')).
  { eapply rtc_l; [by apply step_update|apply rtc_refl]. }
  assert (Hlook : ServiceCheck_Dependency demo_check "queue" demo_state
                  = Some ((Some 2%nat, None), demo_state)) by reflexivity.
  destruct (Dependency_pointer_stable demo_state demo_check σ' s' "queue"
              2%nat (Dependency.mk "queue" true LevelHard (Some down))
              Hwf Hsteps Hlook eq_refl) as (Hlook' & b & Hb).
  exists s', σ'. split_and!; [done| |done|done|by exists b].
  by injection Hrun as <- <-.
Defined.

Lemma updateStatus_frame_witness :
  ∃ s' σ',
    updateStatus demo_check demo_state = Some (s', σ') ∧
    ServiceCheck.Dependencies s' = ServiceCheck.Dependencies demo_check ∧
    length (heap σ') = length (heap demo_state) ∧
    names σ' s' = names demo_state demo_check ∧
    calls demo_state `prefix_of` calls σ'.
Proof.
  destruct (updateStatus demo_check demo_state) as [[s' σ']|] eqn:Hrun;
    [|discriminate Hrun].
  destruct (updateStatus_frame demo_state demo_check s' σ' Hrun)
    as (_ & _ & Hdeps & Hlen & _ & _ & Hnames & Hpre).
  by exists s', σ'.
Defined.

Lemma updateStatus_consistent_witness :
  wf demo_state demo_check ∧
  ∃ s' σ',
    updateStatus demo_check demo_state = Some (s', σ') ∧
    (ServiceCheck.Healthy s' = true ↔
       ∀ d, d ∈ registry σ' s' → Dependency.Level d = LevelHard →
         Dependency.Healthy d = true).
Proof.
  assert (Hwf : wf demo_state demo_check) by (apply wfb_wf; reflexivity).
  split; [exact Hwf|].
  destruct (updateStatus demo_check demo_state) as [[s' σ']|] eqn:Hrun;
    [|discriminate Hrun].
  exists s', σ'. split; [done|].
  exact (updateStatus_consistent demo_state demo_check s' σ' Hwf Hrun).
Defined.

Lemma updateStatus_healthy_pass_witness :
  wf live_state live_check ∧
  ∃ s' σ' evs,
    updateStatus live_check live_state = Some (s', σ') ∧
    ServiceCheck.Healthy s' = true ∧
    calls σ' = calls live_state ++ evs ∧
    length evs = length (ServiceCheck.Dependencies live_check).
Proof.
  assert (Hwf : wf live_state live_check) by (apply wfb_wf; reflexivity).
  split; [exact Hwf|].
  destruct (updateStatus live_check live_state) as [[s' σ']|] eqn:Hrun;
    [|discriminate Hrun].
  assert (Hh : ServiceCheck.Healthy s' = true) by (by injection Hrun as <- <-).
  destruct (updateStatus_healthy_pass live_state live_check s' σ' Hwf Hrun Hh)
    as (evs & Hcalls & _ & Hall).
  exists s', σ', evs. split_and!; [done..|].
  symmetry. exact (Forall2_length _ _ _ Hall).
Defined.

Lemma RegisterDependency_aggregate_stale_witness :
  wf demo_state demo_check ∧ "search" ≠ "" ∧
  ("search" ∉ names demo_state demo_check) ∧ (∀ w, (down w).1 = false) ∧
  ∃ s' σ' s'' σ'',
    RegisterDependency demo_check "search" LevelHard (Some down) demo_state
    = Some ((None, s'), σ') ∧
    ServiceCheck.Healthy s' = ServiceCheck.Healthy demo_check ∧
    updateStatus s' σ' = Some (s'', σ'') ∧
    ServiceCheck.Healthy s'' = false.
Proof.
  assert (Hwf : wf demo_state demo_check) by (apply wfb_wf; reflexivity).
  assert (Hne : "search" ≠ "") by done.
  assert (Hfresh : "search" ∉ names demo_state demo_check).
  { apply (bool_decide_unpack _). reflexivity. }
  assert (Hdown : ∀ w, (down w).1 = false) by reflexivity.
  split_and!; [exact Hwf|exact Hne|exact Hfresh|exact Hdown|].
  destruct (RegisterDependency_aggregate_stale demo_state demo_check "search"
              LevelHard down Hwf Hne Hfresh)
    as (s' & σ' & Hreg & Hh & _ & _ & _ & Hnext).
  destruct (Hnext eq_refl Hdown) as (s'' & σ'' & Hrun & Hh'').
  by exists s', σ', s'', σ''.
Defined.

Lemma InitialiseServiceCheck_fresh_witness :
  "api" ≠ "" ∧
  ∃ s,
    InitialiseServiceCheck "api" 5000000000 = (Some s, None) ∧
    ServiceCheck.Dependencies s = [] ∧
    updateStatus s demo_state = Some (ServiceCheck.set_Healthy true s, demo_state).
Proof.
  assert (Hne : "api" ≠ "") by done.
  split; [exact Hne|].
  destruct (InitialiseServiceCheck_fresh (World:=nat) "api" 5000000000)
    as (_ & Hfresh).
  destruct (Hfresh Hne) as (s & Hinit & _ & _ & Hdeps & Hall).
  exists s. split_and!; [done..|]. by destruct (Hall demo_state).
Defined.

Lemma wait_loop_healthy_at_once_witness :
  usable live_state live_check ∧
  ∃ s' σ',
    updateStatus live_check live_state = Some (s', σ') ∧
    ServiceCheck.Healthy s' = true ∧
    wait_loop 3 (λ w, S w) live_check live_state
    = Some ((true, s'), σ').
Proof.
  assert (Hok : usable live_state live_check).
  { apply wf_usable, wfb_wf. reflexivity. }
  assert (Hgood : ∀ d f, d ∈ registry live_state live_check →
            Dependency.Level d = LevelHard →
            Dependency.check d = Some f → ∀ w, (f w).1 = true).
  { intros d f Hd Hlvl Hf w.
    apply elem_of_records in Hd as (p & Hp & Hd).
    apply list_elem_of_In in Hp. simpl in Hp.
    destruct Hp as [<-|[<-|[]]]; simpl in Hd; injection Hd as <-;
      simpl in Hlvl, Hf; [|discriminate Hlvl].
    by injection Hf as <-. }
  split; [exact Hok|].
  destruct (wait_loop_healthy_at_once live_state live_check Hok Hgood)
    as (s' & σ' & Hrun & Hh & Hloop).
  exists s', σ'. split_and!; [done..|]. apply Hloop.
Defined.

Lemma wait_loop_exit_witness :
  wf demo_state demo_check ∧
  ∃ b s' σ',
    wait_loop 3 (λ w, S w) demo_check demo_state
    = Some ((b, s'), σ') ∧
    wf σ' s' ∧
    ServiceCheck.Dependencies s' = ServiceCheck.Dependencies demo_check.
Proof.
  assert (Hwf : wf demo_state demo_check) by (apply wfb_wf; reflexivity).
  split; [exact Hwf|].
  destruct (wait_loop_exit 3 (λ w, S w) demo_state demo_check Hwf)
    as (b & s' & σ' & Hloop & _ & _ & Hwf' & Hdeps & _).
  exists b, s', σ'. split; [exact Hloop|]. split; [exact Hwf'|exact Hdeps].
Defined.

Lemma wait_loop_stuck_witness :
  wf demo_state demo_check ∧ (∀ w, (down w).1 = false) ∧
  ∃ s' σ',
    wait_loop 3 (λ w, S w) demo_check demo_state
    = Some ((false, s'), σ') ∧
    ServiceCheck.Healthy s' = false.
Proof.
  assert (Hwf : wf demo_state demo_check) by (apply wfb_wf; reflexivity).
  assert (Hdown : ∀ w, (down w).1 = false) by reflexivity.
  assert (Hp : 2%nat ∈ ServiceCheck.Dependencies demo_check).
  { apply list_elem_of_In. simpl. tauto. }
  split_and!; [exact Hwf|exact Hdown|].
  destruct (wait_loop_stuck 3 (λ w, S w) demo_state demo_check
              2%nat (Dependency.mk "queue" true LevelHard (Some down)) down
              Hwf Hp eq_refl eq_refl eq_refl Hdown)
    as (s' & σ' & Hloop & Hh).
  exists s', σ'. split; [done|]. apply Hh. lia.
Defined.

Lemma check_loop_steps_witness :
  wf demo_state demo_check ∧
  ∃ s' σ',
    check_loop 2 (λ d w, (w + Z.to_nat d)%nat) demo_check demo_state
    = Some (s', σ') ∧
    rtc step (demo_state, demo_check) (σ', s') ∧
    ServiceCheck.duration s' = 5000000000.
Proof.
  assert (Hwf : wf demo_state demo_check) by (apply wfb_wf; reflexivity).
  split; [exact Hwf|].
  destruct (check_loop_steps 2 (λ d w, (w + Z.to_nat d)%nat)
              demo_state demo_check Hwf)
    as (s' & σ' & Hloop & Hsteps & _ & _ & Hdur & _).
  by exists s', σ'.
Defined.

Lemma WriteStatus_round_trip_witness :
  is_ascii (ServiceCheck.Name live_check) = true ∧
  ∃ b,
    WriteStatus live_state live_check ([] : Recorder) = ([Body b], None) ∧
    Unmarshal.Decode b
    = Json.Ok (Wire.ServiceCheck.mk "api" true
                 [ Some (Wire.Dependency.mk "db" true 1);
                   Some (Wire.Dependency.mk "queue" false 0) ]).
Proof.
  assert (Hname : is_ascii (ServiceCheck.Name live_check) = true)
    by reflexivity.
  assert (Hdeps : ∀ d, d ∈ registry live_state live_check →
            is_ascii (Dependency.Name d) = true
            ∧ is_uint32 (Dependency.Level d)).
  { intros d Hd. apply elem_of_records in Hd as (p & Hp & Hd).
    apply list_elem_of_In in Hp. simpl in Hp.
    destruct Hp as [<-|[<-|[]]]; simpl in Hd; injection Hd as <-;
      (split; [reflexivity|]);
      unfold is_uint32, uint32_max, LevelHard, LevelSoft; simpl; lia. }
  split; [exact Hname|].
  destruct (WriteStatus_round_trip live_state live_check [] Hname Hdeps)
    as (b & Hw & Hdec).
  by exists b.
Defined.


Lemma helpers_against_HTTPHandler_witness :
  HTTPHandler live_state live_check ([] : Recorder)
  = [Header 200; Body (Json.Encode (heap live_state) live_check)] ∧
  (Check200Helper demo_ParseRequestURI id demo_NewRequest demo_Do
     "http://api/health" 0%nat).1 = (true, None) ∧
  (Get demo_NewRequest demo_Do "http://api/health" 0%nat).1 = (true, None).
Proof.
  assert (Hhandler : HTTPHandler live_state live_check ([] : Recorder)
            = [Header 200; Body (Json.Encode (heap live_state) live_check)])
    by reflexivity.
  split; [exact Hhandler|].
  exact (helpers_against_HTTPHandler demo_ParseRequestURI id demo_NewRequest
           demo_Do live_state live_check "http://api/health"
           "http://api/health" "http://api/health" "http://api/health"
           0%nat 200 _ Hhandler eq_refl eq_refl eq_refl eq_refl eq_refl).
Defined.
